(** * Slider.vue: the value-synchronisation engine of the slider component

    A shallow embedding of [webapp/src/components/Slider.vue].

    Numbers.  JavaScript numbers are IEEE 754 binary64 values; they are
    modelled by the standard library's executable specification of binary
    floating point ([spec_float], instantiated at precision 53 and maximal
    exponent 1024), so every definition below computes the very double the
    script computes.  [Math.round], [Math.min], [Math.max], the conversions
    [Number(text)] and [String(number)], truthiness, [===] and [Object.is]
    are defined on these values in [Module JS].

    Reactivity.  The component is a record of its props, the content of the
    ref [rawSliderValue] and the events emitted; the two computed values are
    functions of the props and of the ref; a handler is a function from
    instance to instance, which runs the watcher of [snappedValue] when it
    has changed the ref.  [Module Slider] follows the script line by
    line.

    The other components.  [Module ModelSelect] embeds the selection logic
    of the model picker ([ModelSelect.vue]) and [Module Options] the
    handlers of the options panel ([webapp/vue/Options.vue]), in the same
    way: an instance is a record, a handler a function on it, and what the
    handler asks of the browser (an event source created or closed) is
    logged in the instance. *)

From Stdlib Require Import ZArith QArith Bool List String Ascii Lia.
From Stdlib Require Import DecimalString.
From Stdlib Require Import Floats.SpecFloat Floats.PrimFloat Floats.FloatOps.
Import ListNotations.

Local Open Scope Z_scope.

(** ** JavaScript numbers *)

Module JS.

Definition number := spec_float.

Definition prec : Z := 53.
Definition emax : Z := 1024.

(** A double written as a literal of the proof assistant, as the kernel's
    own binary64 arithmetic reads it. *)
Definition lit (f : PrimFloat.float) : number := Prim2SF f.

Definition NaN : number := S754_nan.
Definition Infinity : number := S754_infinity false.
Definition pzero : number := S754_zero false.
Definition nzero : number := S754_zero true.

(** The Number value of a mathematical integer (round to nearest, ties to
    even). *)
Definition of_Z (n : Z) : number := binary_normalize prec emax n 0 false.

Definition add : number -> number -> number := SFadd prec emax.
Definition sub : number -> number -> number := SFsub prec emax.
Definition mul : number -> number -> number := SFmul prec emax.
Definition div : number -> number -> number := SFdiv prec emax.

(** [x === y] and [x !== y] on numbers: NaN differs from itself, the two
    zeros are equal. *)
Definition strict_eq (x y : number) : bool := SFeqb x y.
Definition strict_neq (x y : number) : bool := negb (strict_eq x y).

(** [x < y] and [x <= y]. *)
Definition lt (x y : number) : bool := SFltb x y.
Definition le (x y : number) : bool := SFleb x y.

(** [Object.is(x, y)] on numbers (SameValue): NaN is NaN, +0 is not -0.
    Vue's [hasChanged] is its negation. *)
Definition same_value (x y : number) : bool :=
  match x, y with
  | S754_nan, S754_nan => true
  | S754_zero s1, S754_zero s2 => Bool.eqb s1 s2
  | S754_infinity s1, S754_infinity s2 => Bool.eqb s1 s2
  | S754_finite s1 m1 e1, S754_finite s2 m2 e2 =>
      Bool.eqb s1 s2 && Pos.eqb m1 m2 && Z.eqb e1 e2
  | _, _ => false
  end.

(** ToBoolean on numbers: [+0], [-0] and [NaN] are falsy. *)
Definition truthy (x : number) : bool :=
  match x with
  | S754_zero _ | S754_nan => false
  | _ => true
  end.

(** [x || y] on numbers. *)
Definition or_else (x y : number) : number := if truthy x then x else y.

(** [Number.isFinite]. *)
Definition isFinite (x : number) : bool :=
  match x with
  | S754_zero _ | S754_finite _ _ _ => true
  | _ => false
  end.

(** [Math.max(x, y)]: NaN if either is NaN, and [+0] is larger than [-0]. *)
Definition Math_max (x y : number) : number :=
  match x, y with
  | S754_nan, _ | _, S754_nan => S754_nan
  | S754_zero s1, S754_zero s2 => S754_zero (s1 && s2)
  | _, _ => if lt x y then y else x
  end.

(** [Math.min(x, y)]: NaN if either is NaN, and [-0] is smaller than [+0]. *)
Definition Math_min (x y : number) : number :=
  match x, y with
  | S754_nan, _ | _, S754_nan => S754_nan
  | S754_zero s1, S754_zero s2 => S754_zero (s1 || s2)
  | _, _ => if lt y x then y else x
  end.

(** [Math.round(x)]: the integer closest to [x], ties going towards
    +Infinity, that is [floor(x + 1/2)] computed exactly; NaN, the
    infinities and the zeros are returned as they are, and a result of zero
    keeps the sign of [x]. *)
Definition Math_round (x : number) : number :=
  match x with
  | S754_finite s m (Zneg p) =>
      let d := Pos.iter xO 1%positive p in            (* 2^p *)
      let n := (2 * (if s then Zneg m else Zpos m) + Zpos d) / (2 * Zpos d) in
      match n with
      | Z0 => S754_zero s
      | _ => of_Z n
      end
  | _ => x
  end.

(** The exact value of a finite number, as a fraction. *)
Definition to_Q (x : number) : option Q :=
  match x with
  | S754_zero _ => Some 0%Q
  | S754_finite s m (Zneg e) =>
      Some (Qmake (if s then Zneg m else Zpos m) (Pos.iter xO 1%positive e))
  | S754_finite s m e => Some (inject_Z ((if s then Zneg m else Zpos m) * 2 ^ e))
  | _ => None
  end.

(** [10 ** n] for a natural exponent. *)
Definition pow10 (n : nat) : number := of_Z (10 ^ Z.of_nat n).

(** *** Decimal text to number

    The Number value of the decimal [n * 10^e]: the exact quotient or
    product, rounded once to nearest, ties to even. *)
Definition of_decimal (neg : bool) (n : N) (e : Z) : number :=
  match n with
  | N0 => S754_zero neg
  | Npos p =>
      match e with
      | Zneg k =>
          let '(q, e', l) :=
            SFdiv_core_binary prec emax (Zpos p) 0 (10 ^ Zpos k) 0 in
          binary_round_aux prec emax neg q e' l
      | _ =>
          match Zpos p * 10 ^ e with
          | Zpos m => binary_round prec emax neg m 0
          | _ => S754_zero neg
          end
      end
  end.

Definition digit_of (c : ascii) : option N :=
  let n := N_of_ascii c in
  if (48 <=? n)%N && (n <=? 57)%N then Some (n - 48)%N else None.

Definition hex_digit_of (c : ascii) : option N :=
  let n := N_of_ascii c in
  if (48 <=? n)%N && (n <=? 57)%N then Some (n - 48)%N
  else if (97 <=? n)%N && (n <=? 102)%N then Some (n - 87)%N
  else if (65 <=? n)%N && (n <=? 70)%N then Some (n - 55)%N
  else None.

(** Reads the longest prefix of digits in base [base]: the value read, the
    number of digits read and the rest of the text. *)
Fixpoint read_digits (digit : ascii -> option N) (base : N) (s : string)
    (acc : N) (count : nat) : N * nat * string :=
  match s with
  | String c rest =>
      match digit c with
      | Some d => read_digits digit base rest (acc * base + d)%N (S count)
      | None => (acc, count, s)
      end
  | EmptyString => (acc, count, s)
  end.

(** White space, as far as it is found among the first 128 characters. *)
Definition is_white_space (c : ascii) : bool :=
  let n := N_of_ascii c in
  ((9 <=? n)%N && (n <=? 13)%N) || (n =? 32)%N.

Fixpoint trim_start (s : string) : string :=
  match s with
  | String c rest => if is_white_space c then trim_start rest else s
  | EmptyString => s
  end.

(** The text up to its trailing white space. *)
Fixpoint trim_end (s : string) : string :=
  match s with
  | String c rest =>
      match trim_end rest with
      | EmptyString => if is_white_space c then EmptyString else String c EmptyString
      | rest' => String c rest'
      end
  | EmptyString => s
  end.

(** An optional exponent part [e], [e+] or [e-] followed by digits, which
    must end the text. *)
Definition read_exponent (s : string) : option Z :=
  match s with
  | EmptyString => Some 0
  | String c rest =>
      if (Ascii.eqb c "e" || Ascii.eqb c "E")%char then
        let '(neg, body) :=
          match rest with
          | String "-" r => (true, r)
          | String "+" r => (false, r)
          | _ => (false, rest)
          end in
        match read_digits digit_of 10 body 0 0 with
        | (_, O, _) => None
        | (v, _, EmptyString) => Some (if neg then - Z.of_N v else Z.of_N v)
        | _ => None
        end
      else None
  end.

(** An unsigned decimal literal: digits, an optional fraction, an optional
    exponent; at least one digit before or after the point. *)
Definition read_unsigned_decimal (neg : bool) (s : string) : number :=
  let '(ip, ni, rest) := read_digits digit_of 10 s 0 0 in
  let '(m, nf, rest') :=
    match rest with
    | String "." r => read_digits digit_of 10 r ip 0
    | _ => (ip, O, rest)
    end in
  match (ni + nf)%nat with
  | O => NaN
  | _ =>
      match read_exponent rest' with
      | Some e => of_decimal neg m (e - Z.of_nat nf)
      | None => NaN
      end
  end.

Definition read_radix (digit : ascii -> option N) (base : N) (s : string)
    : number :=
  match read_digits digit base s 0 0 with
  | (_, O, _) => NaN
  | (v, _, EmptyString) => of_Z (Z.of_N v)
  | _ => NaN
  end.

Definition read_signed_decimal (neg : bool) (s : string) : number :=
  if String.eqb s "Infinity" then S754_infinity neg
  else read_unsigned_decimal neg s.

(** [Number(s)] for a string [s] (StringToNumber): white space is trimmed,
    the empty text is [+0], and text that is no numeric literal is NaN. *)
Definition Number (s : string) : number :=
  match trim_end (trim_start s) with
  | EmptyString => pzero
  | String "-" r => read_signed_decimal true r
  | String "+" r => read_signed_decimal false r
  | String "0" (String "x" r) | String "0" (String "X" r) =>
      read_radix hex_digit_of 16 r
  | String "0" (String "o" r) | String "0" (String "O" r) =>
      read_radix (fun c => match digit_of c with
                           | Some d => if (d <? 8)%N then Some d else None
                           | None => None end) 8 r
  | String "0" (String "b" r) | String "0" (String "B" r) =>
      read_radix (fun c => match digit_of c with
                           | Some d => if (d <? 2)%N then Some d else None
                           | None => None end) 2 r
  | t => read_signed_decimal false t
  end.

(** *** Number to decimal text

    [String(x)] follows Number::toString: the digits are the shortest
    decimal [s * 10^(n-k)], with [k] digits, that reads back as [x]. *)

(** The positive finite [m * 2^e] as an exact fraction. *)
Definition to_fraction (m : positive) (e : Z) : Z * Z :=
  match e with
  | Zneg p => (Zpos m, 2 ^ Zpos p)
  | _ => (Zpos m * 2 ^ e, 1)
  end.

(** The [n] with [10^(n-1) <= num/den < 10^n], searched upwards from
    [n]. *)
Fixpoint decimal_exponent_up (fuel : nat) (num den : Z) (n : Z) : Z :=
  match fuel with
  | O => n
  | S fuel' =>
      if num <? den * 10 ^ n then n
      else decimal_exponent_up fuel' num den (n + 1)
  end.

(** The same, searched downwards: [j] is [1 - n]. *)
Fixpoint decimal_exponent_down (fuel : nat) (num den : Z) (j : Z) : Z :=
  match fuel with
  | O => 1 - j
  | S fuel' =>
      if den <=? num * 10 ^ j then 1 - j
      else decimal_exponent_down fuel' num den (j + 1)
  end.

Definition decimal_exponent (num den : Z) : Z :=
  if den <=? num
  then decimal_exponent_up (S (Z.to_nat (Z.log2 num))) num den 1
  else decimal_exponent_down (S (Z.to_nat (Z.log2 den))) num den 1.

(** Looks for [k] digits that read back as [x = num/den], for [k] going
    upwards; of two candidates the closer one wins. *)
Fixpoint shortest_digits (fuel : nat) (x : number) (num den n k : Z)
    : Z * Z :=
  let t := n - k in
  let '(a, b) :=
    match t with
    | Zneg p => (num * 10 ^ Zpos p, den)
    | _ => (num, den * 10 ^ t)
    end in
  let lo := a / b in
  let hi := lo + 1 in
  let reads_back s := same_value (of_decimal false (Z.to_N s) t) x in
  let closer_hi := b <? 2 * (a - lo * b) in
  let found s := if s =? 10 ^ k then (10 ^ (k - 1), n + 1) else (s, n) in
  match fuel with
  | O => (lo, n)
  | S fuel' =>
      match reads_back lo, reads_back hi with
      | true, true => found (if closer_hi then hi else lo)
      | true, false => found lo
      | false, true => found hi
      | false, false => shortest_digits fuel' x num den n (k + 1)
      end
  end.

Local Open Scope string_scope.

Definition digits_of (s : Z) : string :=
  NilZero.string_of_uint (N.to_uint (Z.to_N s)).

Fixpoint zeros (n : nat) : string :=
  match n with
  | O => EmptyString
  | S n' => String "0" (zeros n')
  end.

Definition to_string_positive (x : number) (m : positive) (e : Z) : string :=
  let '(num, den) := to_fraction m e in
  let '(s, n) := shortest_digits 17 x num den (decimal_exponent num den) 1 in
  let ds := digits_of s in
  let k := Z.of_nat (String.length ds) in
  if ((k <=? n) && (n <=? 21))%Z then
    ds ++ zeros (Z.to_nat (n - k))
  else if ((0 <? n) && (n <=? 21))%Z then
    substring 0 (Z.to_nat n) ds ++ "." ++ substring (Z.to_nat n) (Z.to_nat (k - n)) ds
  else if ((-6 <? n) && (n <=? 0))%Z then
    "0." ++ zeros (Z.to_nat (- n)) ++ ds
  else
    let ex := (if (n - 1 <? 0)%Z then "-" else "+") ++ digits_of (Z.abs (n - 1)) in
    if (k =? 1)%Z then ds ++ "e" ++ ex
    else substring 0 1 ds ++ "." ++ substring 1 (Z.to_nat (k - 1)) ds ++ "e" ++ ex.

(** [String(x)]. *)
Definition String_ (x : number) : string :=
  match x with
  | S754_nan => "NaN"
  | S754_zero _ => "0"
  | S754_infinity s => if s then "-Infinity" else "Infinity"
  | S754_finite s m e =>
      (if s then "-" else "") ++ to_string_positive (S754_finite false m e) m e
  end.

(** [s.indexOf(c)] for a one-character [c]: the first position, or -1. *)
Fixpoint indexOf_from (s : string) (c : ascii) (i : Z) : Z :=
  match s with
  | EmptyString => -1
  | String d rest => if Ascii.eqb d c then i else indexOf_from rest c (i + 1)
  end.

Definition indexOf (s : string) (c : ascii) : Z := indexOf_from s c 0.

End JS.

(** ** The slider component *)

Module Slider.
Import JS.

#[local] Set Warnings "-inexact-float".

(** A value that is a number, [null] or [undefined]. *)
Inductive maybe_number : Type :=
  | Undefined
  | Null
  | Num (n : number).

(** [x ?? y]. *)
Definition nullish_or (x : maybe_number) (y : number) : number :=
  match x with
  | Num n => n
  | Undefined | Null => y
  end.

(** [Object.is] on such values; Vue's [hasChanged] is its negation. *)
Definition same_maybe (x y : maybe_number) : bool :=
  match x, y with
  | Undefined, Undefined | Null, Null => true
  | Num a, Num b => same_value a b
  | _, _ => false
  end.

(** What the parent passes: every prop may be left out.  [min], [max] and
    [step] are Numbers when given; [modelValue] may also be [null], which
    the script provides for. *)
Record Attrs : Type := {
  attr_min : option number;
  attr_max : option number;
  attr_step : option number;
  attr_modelValue : maybe_number;
  attr_showInput : option bool
}.

(** The props as the component reads them. *)
Record Props : Type := {
  min : number;
  max : number;
  step : number;
  modelValue : maybe_number;
  showInput : bool
}.

(** A prop that is left out, or [undefined], takes its declared default;
    [null] is kept. *)
Definition with_default {A : Type} (given : option A) (default : A) : A :=
  match given with
  | Some v => v
  | None => default
  end.

Definition modelValue_with_default (given : maybe_number) (default : number)
    : maybe_number :=
  match given with
  | Undefined => Num default
  | _ => given
  end.

(** The declared default of [modelValue]. *)
Definition default_modelValue : number := of_Z 1.

(** [defineProps]: the declared defaults. *)
Definition defineProps (a : Attrs) : Props := {|
  min := with_default (attr_min a) (of_Z 0);
  max := with_default (attr_max a) (of_Z 100);
  step := with_default (attr_step a) (of_Z 1);
  modelValue := modelValue_with_default (attr_modelValue a) default_modelValue;
  showInput := with_default (attr_showInput a) true
|}.

(** The component instance: its props, the ref [rawSliderValue], the value
    the watcher of [snappedValue] saw last, and the [update:modelValue]
    events emitted so far, oldest first. *)
Record State : Type := {
  props : Props;
  rawSliderValue : maybe_number;
  seen : number;
  emitted : list number
}.

(** The computed [stepDecimals]: the number of characters after the point
    in the decimal text of the step. *)
Definition stepDecimals (p : Props) : Z :=
  let step := or_else (step p) (of_Z 1) in
  let stepStr := String_ step in
  let dotIndex := indexOf stepStr "." in
  if dotIndex =? -1 then 0 else Z.of_nat (String.length stepStr) - dotIndex - 1.

(** [roundToStepPrecision(value)]. *)
Definition roundToStepPrecision (p : Props) (value : number) : number :=
  let decimals := stepDecimals p in
  let factor := pow10 (Z.to_nat decimals) in
  div (Math_round (mul value factor)) factor.

(** The computed [snappedValue], as a function of the props and of the
    ref's content. *)
Definition snappedValue_of (p : Props) (rawValue : maybe_number) : number :=
  let min := min p in
  let max := max p in
  let step := or_else (step p) (of_Z 1) in
  let raw := nullish_or rawValue min in
  let clampedRaw := Math_min max (Math_max min raw) in
  let stepsFromMin := Math_round (div (sub clampedRaw min) step) in
  let snapped := add min (mul stepsFromMin step) in
  let clampedSnapped := Math_min max (Math_max min snapped) in
  roundToStepPrecision p clampedSnapped.

Definition snappedValue (st : State) : number :=
  snappedValue_of (props st) (rawSliderValue st).

(** The computed [sliderValPercent]. *)
Definition sliderValPercent_of (p : Props) (rawValue : maybe_number) : number :=
  let range := sub (max p) (min p) in
  if negb (truthy range) then of_Z 0
  else
    let raw := nullish_or rawValue (min p) in
    let clamped := Math_min (max p) (Math_max (min p) raw) in
    mul (div (sub clamped (min p)) range) (of_Z 100).

Definition sliderValPercent (st : State) : number :=
  sliderValPercent_of (props st) (rawSliderValue st).

(** The constants [step], [clampedRaw] and [stepsFromMin] inside
    [snappedValue], and the quotient that [stepsFromMin] rounds. *)
Definition effective_step (p : Props) : number := or_else (step p) (of_Z 1).

Definition clampedRaw_of (p : Props) (rawValue : maybe_number) : number :=
  Math_min (max p) (Math_max (min p) (nullish_or rawValue (min p))).

Definition quotient_of (p : Props) (rawValue : maybe_number) : number :=
  div (sub (clampedRaw_of p rawValue) (min p)) (effective_step p).

Definition stepsFromMin_of (p : Props) (rawValue : maybe_number) : number :=
  Math_round (quotient_of p rawValue).

(** The lattice point [min + k * step], in exact arithmetic. *)
Definition lattice_point (p : Props) (k : Z) : option Q :=
  match to_Q (min p), to_Q (effective_step p) with
  | Some a, Some s => Some (a + inject_Z k * s)%Q
  | _, _ => None
  end.

(** [quantize] and [positionFraction], as the description of the component
    names the two derivations, at a raw position [x]. *)
Definition quantize (p : Props) (x : number) : number :=
  snappedValue_of p (Num x).

Definition positionFraction (p : Props) (x : number) : number :=
  sliderValPercent_of p (Num x).

(** The watcher of [snappedValue] runs once the ref has changed: it emits
    [update:modelValue] when the computed value differs from the one it saw
    last. *)
Definition run_watch_snappedValue (st : State) : State :=
  let value := snappedValue st in
  if same_value value (seen st) then st
  else {| props := props st;
          rawSliderValue := rawSliderValue st;
          seen := value;
          emitted := emitted st ++ [value] |}.

(** [rawSliderValue.value = x]: a ref notifies its watchers only when the
    value assigned differs from the one it holds. *)
Definition set_rawSliderValue (x : number) (st : State) : State :=
  if same_maybe (Num x) (rawSliderValue st) then st
  else run_watch_snappedValue
         {| props := props st;
            rawSliderValue := Num x;
            seen := seen st;
            emitted := emitted st |}.

(** Set-up: the props are resolved, the ref is created, the watchers take
    their first values; nothing is emitted. *)
Definition setup (a : Attrs) : State :=
  let p := defineProps a in
  let raw := Num (nullish_or (modelValue p) (min p)) in
  {| props := p;
     rawSliderValue := raw;
     seen := snappedValue_of p raw;
     emitted := [] |}.

(** The callback of [watch(() => props.modelValue, ...)]. *)
Definition watch_modelValue (value : maybe_number) (st : State) : State :=
  let fallback := min (props st) in
  let next := nullish_or value fallback in
  if strict_neq next (snappedValue st) then set_rawSliderValue next st
  else st.

(** The parent passes a new [modelValue]: the prop is resolved, and the
    watcher's callback runs when the prop has changed. *)
Definition update_modelValue (given : maybe_number) (st : State) : State :=
  let value := modelValue_with_default given default_modelValue in
  if same_maybe value (modelValue (props st)) then st
  else
    watch_modelValue value
      {| props := {| min := min (props st);
                     max := max (props st);
                     step := step (props st);
                     modelValue := value;
                     showInput := showInput (props st) |};
         rawSliderValue := rawSliderValue st;
         seen := seen st;
         emitted := emitted st |}.

(** The two input handlers; [value] is [event.target.value]. *)
Definition onRangeInput (value : string) (st : State) : State :=
  set_rawSliderValue (Number value) st.

Definition onNumberInput (value : string) (st : State) : State :=
  let value := Number value in
  if isFinite value then set_rawSliderValue value st else st.

(** The watcher of [snappedValue] has seen the current value: so it is
    between two events. *)
Definition settled (st : State) : Prop := seen st = snappedValue st.

(** *** Configurations and instances used below *)

(** The props of a component given [min], [max] and [step] only. *)
Definition config (lo hi st : number) : Props :=
  defineProps {| attr_min := Some lo;
                 attr_max := Some hi;
                 attr_step := Some st;
                 attr_modelValue := Undefined;
                 attr_showInput := None |}.

(** The component with no prop given at all. *)
Definition no_attrs : Attrs :=
  {| attr_min := None;
     attr_max := None;
     attr_step := None;
     attr_modelValue := Undefined;
     attr_showInput := None |}.

(** The range 0..100 in steps of a tenth. *)
Definition tenths : Props := config (of_Z 0) (of_Z 100) (lit 0.1%float).

(** The mantissa of the double nearest to 0.1, which is
    [tenth_m * 2^-56]. *)
Definition tenth_m : Z := 7205759403792794.

(** [p] with another step. *)
Definition with_step (p : Props) (st : number) : Props :=
  {| min := min p;
     max := max p;
     step := st;
     modelValue := modelValue p;
     showInput := showInput p |}.

(** *** The life of an instance

    What happens to a mounted slider: the range input or the number input
    fires [input] with a text, or the parent passes another
    [modelValue]. *)
Inductive Event : Type :=
  | RangeInput (value : string)
  | NumberInput (value : string)
  | ModelValue (given : maybe_number).

Definition handle (st : State) (ev : Event) : State :=
  match ev with
  | RangeInput value => onRangeInput value st
  | NumberInput value => onNumberInput value st
  | ModelValue given => update_modelValue given st
  end.

Definition run (st : State) (evs : list Event) : State :=
  fold_left handle evs st.

(** Every value of the list differs ([Object.is]) from the one before it,
    the first one from [prev]. *)
Fixpoint changes (prev : number) (l : list number) : bool :=
  match l with
  | [] => true
  | x :: rest => negb (same_value prev x) && changes x rest
  end.

(** The log of emissions read against the value [init] that the watcher of
    [snappedValue] started from: no emission repeats the one before it, and
    the watcher has seen the last one. *)
Definition log_ok (init : number) (st : State) : Prop :=
  changes init (emitted st) = true /\ last (emitted st) init = seen st.

(** The constant [clampedSnapped] inside [snappedValue]. *)
Definition clampedSnapped_of (p : Props) (rawValue : maybe_number) : number :=
  Math_min (max p)
    (Math_max (min p)
       (add (min p) (mul (stepsFromMin_of p rawValue) (effective_step p)))).

(** The ref holds a finite number. *)
Definition raw_isFinite (st : State) : bool :=
  match rawSliderValue st with
  | Num x => isFinite x
  | Undefined | Null => false
  end.

(** The events that bring a finite number: a text that reads as one, or a
    [modelValue] that is one; [lo] is the [min] that stands in for
    [null]. *)
Definition finite_event (lo : number) (ev : Event) : bool :=
  match ev with
  | RangeInput value => isFinite (Number value)
  | NumberInput _ => true
  | ModelValue (Num v) => isFinite v
  | ModelValue Null => isFinite lo
  | ModelValue Undefined => true
  end.

(** *** The texts that [String] writes *)

(** The text ends with the character [c]. *)
Fixpoint ends_with (s : string) (c : ascii) : bool :=
  match s with
  | EmptyString => false
  | String d rest =>
      match rest with
      | EmptyString => Ascii.eqb d c
      | String _ _ => ends_with rest c
      end
  end.

(** The text consists of decimal digits. *)
Fixpoint digits_only (s : string) : bool :=
  match s with
  | EmptyString => true
  | String d rest =>
      match digit_of d with
      | Some _ => digits_only rest
      | None => false
      end
  end.
End Slider.

(** ** The model picker (ModelSelect.vue) *)

Module ModelSelect.

#[local] Open Scope string_scope.

Section Component.

(** The entries of [modelList] are objects; the script reads their
    properties [model] (the identifier) and [name], and hands them to the
    prop [getModelIcon]. *)
Variable Model : Type.
Variable model : Model -> string.
Variable name : Model -> string.
Variable getModelIcon : Model -> string.

Record Props : Type := {
  modelValue : string;
  modelList : list Model
}.

(** What [emit] was called with: [update:modelValue] carries the
    identifier, [change] an object whose [target.value] and
    [srcElement.value] are given here. *)
Inductive Emission : Type :=
  | UpdateModelValue (value : string)
  | Change (target_value srcElement_value : string).

(** The component instance: its props, the ref [isOpen] and the events
    emitted so far, oldest first. *)
Record State : Type := {
  props : Props;
  isOpen : bool;
  emitted : list Emission
}.

Definition setup (p : Props) : State :=
  {| props := p; isOpen := false; emitted := [] |}.

(** The computed [selectedModel]; [None] is [null]. *)
Definition selectedModel (p : Props) : option Model :=
  find (fun m => String.eqb (model m) (modelValue p)) (modelList p).

Definition selectedModelName (p : Props) : string :=
  match selectedModel p with
  | Some m => name m
  | None => "Select a model"
  end.

Definition selectedModelIcon (p : Props) : string :=
  match selectedModel p with
  | Some m => getModelIcon m
  | None => ""
  end.

Definition selectModel (m : Model) (st : State) : State :=
  {| props := props st;
     isOpen := false;
     emitted := (emitted st ++ [UpdateModelValue (model m);
                                Change (model m) (model m)])%list |}.

(** A keyboard event: its [key], and whether [preventDefault] was called
    on it. *)
Record KeyboardEvent : Type := {
  key : string;
  defaultPrevented : bool
}.

Definition preventDefault (event : KeyboardEvent) : KeyboardEvent :=
  {| key := key event; defaultPrevented := true |}.

Definition handleKeydown (event : KeyboardEvent) (m : Model) (st : State)
    : KeyboardEvent * State :=
  if String.eqb (key event) "Enter" || String.eqb (key event) " " then
    (preventDefault event, selectModel m st)
  else if String.eqb (key event) "Escape" then
    (event, {| props := props st; isOpen := false; emitted := emitted st |})
  else (event, st).

(** What happens to an instance: an entry is clicked, a key goes down on an
    entry, the dropdown opens or closes ([v-model="isOpen"]), the parent
    passes another [modelValue]. *)
Inductive Event : Type :=
  | Click (m : Model)
  | Keydown (event : KeyboardEvent) (m : Model)
  | SetOpen (open : bool)
  | SetModelValue (value : string).

Definition handle (st : State) (ev : Event) : State :=
  match ev with
  | Click m => selectModel m st
  | Keydown event m => snd (handleKeydown event m st)
  | SetOpen open =>
      {| props := props st; isOpen := open; emitted := emitted st |}
  | SetModelValue value =>
      {| props := {| modelValue := value; modelList := modelList (props st) |};
         isOpen := isOpen st;
         emitted := emitted st |}
  end.

Definition run (st : State) (evs : list Event) : State :=
  fold_left handle evs st.

(** The emissions come in pairs: [update:modelValue] with a value, then
    [change] with the same value at both places. *)
Fixpoint paired (l : list Emission) : bool :=
  match l with
  | [] => true
  | UpdateModelValue v :: Change t s :: rest =>
      String.eqb v t && String.eqb v s && paired rest
  | _ => false
  end.

(** The events that select an entry. *)
Definition selects (ev : Event) : bool :=
  match ev with
  | Click _ => true
  | Keydown event _ => String.eqb (key event) "Enter" || String.eqb (key event) " "
  | SetOpen _ | SetModelValue _ => false
  end.

(** The identifier that the last [update:modelValue] carried. *)
Fixpoint last_update (l : list Emission) : option string :=
  match l with
  | [] => None
  | UpdateModelValue value :: rest =>
      match last_update rest with
      | Some later => Some later
      | None => Some value
      end
  | Change _ _ :: rest => last_update rest
  end.

(** A parent that binds the picker with [v-model]: it passes back as
    [modelValue] what the last [update:modelValue] carried. *)
Definition v_model (st : State) : State :=
  match last_update (emitted st) with
  | Some value => handle st (SetModelValue value)
  | None => st
  end.

End Component.

Arguments modelValue {Model}.
Arguments modelList {Model}.
Arguments props {Model}.
Arguments isOpen {Model}.
Arguments emitted {Model}.
Arguments setup {Model}.
Arguments selectedModel {Model}.
Arguments selectedModelName {Model}.
Arguments selectedModelIcon {Model}.
Arguments selectModel {Model}.
Arguments handleKeydown {Model}.
Arguments handle {Model}.
Arguments run {Model}.
Arguments selects {Model}.
Arguments v_model {Model}.
Arguments Click {Model}.
Arguments Keydown {Model}.
Arguments SetOpen {Model}.
Arguments SetModelValue {Model}.

End ModelSelect.

(** ** The options panel (Options.vue) *)

Module Options.
Import JS.

#[local] Open Scope string_scope.

(** A JavaScript value, as far as the panel tells values apart: an object
    or a function (other than a Vue ref) is only known to be one. *)
Inductive value : Type :=
  | Undefined
  | Null
  | Bool (b : bool)
  | Num (n : number)
  | Str (s : string)
  | Obj.

Definition ToBoolean (v : value) : bool :=
  match v with
  | Undefined | Null => false
  | Bool b => b
  | Num n => truthy n
  | Str s => negb (String.eqb s "")
  | Obj => true
  end.

(** [!v]. *)
Definition logical_not (v : value) : value := Bool (negb (ToBoolean v)).

(** A plain object: its own enumerable properties under their names, in
    the order in which JavaScript lists them, the array indices first, in
    ascending order, then the other names in the order of their
    creation. *)
Definition object : Type := list (string * value).

Fixpoint own (o : object) (key : string) : option value :=
  match o with
  | [] => None
  | (k, v) :: rest => if String.eqb k key then Some v else own rest key
  end.

(** The names that every plain object inherits from [Object.prototype]. *)
Definition Object_prototype : list string :=
  ["constructor"; "hasOwnProperty"; "isPrototypeOf"; "propertyIsEnumerable";
   "toLocaleString"; "toString"; "valueOf"; "__proto__";
   "__defineGetter__"; "__defineSetter__"; "__lookupGetter__"; "__lookupSetter__"].

(** The array index that a property name is: the decimal text of a whole
    number below [2 ** 32 - 1], written without sign or leading zero. *)
Definition array_index (key : string) : option N :=
  match NilZero.uint_of_string key with
  | Some u =>
      let n := N.of_uint u in
      if String.eqb (NilZero.string_of_uint (N.to_uint n)) key
         && (n <? 4294967295)%N
      then Some n else None
  | None => None
  end.

(** Whether a new property [key] is listed before the property [k]: an
    array index before a greater one and before every other name. *)
Definition goes_before (key k : string) : bool :=
  match array_index key, array_index k with
  | Some i, Some j => (i <? j)%N
  | Some _, None => true
  | None, _ => false
  end.


(** How the parent holds the object that it passes as [modelValue]: what
    the holder answers by itself when the property [key] is read, if it
    does.  A plain object answers nothing by itself; the proxy that Vue
    makes of an object held in a [ref] or by [reactive] answers its flags
    and [hasOwnProperty]. *)
Definition proxy : Type := string -> option value.

Definition raw : proxy := fun _ => None.

Definition reactive : proxy := fun key =>
  if String.eqb key "__v_isReactive" then Some (Bool true)
  else if String.eqb key "__v_isReadonly" then Some (Bool false)
  else if String.eqb key "__v_isShallow" then Some (Bool false)
  else if String.eqb key "__v_raw" then Some Obj
  else if String.eqb key "hasOwnProperty" then Some Obj
  else None.

(** [o[key]] read through the holder of [o]: the holder's own answer, else
    the own property, else the inherited one, else [undefined]. *)
Definition get (p : proxy) (o : object) (key : string) : value :=
  match p key with
  | Some answer => answer
  | None =>
      match own o key with
      | Some v => v
      | None =>
          if existsb (String.eqb key) Object_prototype then Obj else Undefined
      end
  end.

(** [{ ...o }]: a new plain object with the own properties of [o] in
    their order, each value read through the holder of [o]. *)
Definition spread (p : proxy) (o : object) : object :=
  map (fun kv => (fst kv, get p o (fst kv))) o.

(** The value of the first property [key] becomes [v]. *)
Fixpoint replace (o : object) (key : string) (v : value) : object :=
  match o with
  | [] => []
  | (k, w) :: rest =>
      if String.eqb k key then (k, v) :: rest else (k, w) :: replace rest key v
  end.

(** A property [key] that [o] does not have is created with the value
    [v], at its place in the order of JavaScript. *)
Fixpoint create (o : object) (key : string) (v : value) : object :=
  match o with
  | [] => [(key, v)]
  | (k, w) :: rest =>
      if goes_before key k then (key, v) :: (k, w) :: rest
      else (k, w) :: create rest key v
  end.

(** [[key]: v] in an object literal that holds [o] so far: the property
    [key] is given the value [v] where it is, or is created. *)
Definition define (o : object) (key : string) (v : value) : object :=
  match own o key with
  | Some _ => replace o key v
  | None => create o key v
  end.

(** The object [next] that [handleToggle(key)] builds from the prop
    [modelValue], which the parent holds by [p]. *)
Definition next (key : string) (p : proxy) (modelValue : object) : object :=
  define (spread p modelValue) key (logical_not (get p modelValue key)).

Section Component.

(** The data of a sensor message, and [JSON.parse], which throws on text
    that is no JSON ([None]). *)
Variable Data : Type.
Variable JSON_parse : string -> option Data.

Inductive Emission : Type :=
  | UpdateModelValue (next : object)
  | SensorData (data : Data).

(** The component instance: the props (with the way the parent holds
    [modelValue]), the refs and the variable
    [eventSource] of [setup], the URLs of the event sources created so far
    and the number of those that were closed, and the events emitted so
    far, oldest first.  [eventSource] holds the position of the current
    source among the created ones. *)
Record State : Type := {
  modelValue : object;
  holder : proxy;
  sensorUri : string;
  connectionStatus : option string;
  enableSensor : bool;
  eventSource : option nat;
  messages : list Data;
  created : list string;
  closed : nat;
  emitted : list Emission
}.

(** The instance that [setup] leaves: the refs hold their first values
    ([ref] being Vue's, which the script uses without importing it), and
    no event source exists yet. *)
Definition setup (modelValue : object) (holder : proxy) (sensorUri : string)
    : State :=
  {| modelValue := modelValue;
     holder := holder;
     sensorUri := sensorUri;
     connectionStatus := None;
     enableSensor := false;
     eventSource := None;
     messages := [];
     created := [];
     closed := 0;
     emitted := [] |}.

Definition closeConnection (st : State) : State :=
  match eventSource st with
  | Some _ =>
      {| modelValue := modelValue st;
         holder := holder st;
         sensorUri := sensorUri st;
         connectionStatus := Some "";
         enableSensor := enableSensor st;
         eventSource := None;
         messages := messages st;
         created := created st;
         closed := S (closed st);
         emitted := emitted st |}
  | None => st
  end.

Definition initEventSource (st : State) : State :=
  {| modelValue := modelValue st;
     holder := holder st;
     sensorUri := sensorUri st;
     connectionStatus := connectionStatus st;
     enableSensor := enableSensor st;
     eventSource := Some (List.length (created st));
     messages := messages st;
     created := (created st ++ [sensorUri st])%list;
     closed := closed st;
     emitted := emitted st |}.

(** The [onmessage] callback of an event source, up to its last
    statement, which reads [debug], a name that the script does not
    declare, and logs. *)
Definition onmessage (event_data : string) (st : State) : State :=
  match JSON_parse event_data with
  | None => st
  | Some data =>
      let unshifted := data :: messages st in
      {| modelValue := modelValue st;
         holder := holder st;
         sensorUri := sensorUri st;
         connectionStatus := connectionStatus st;
         enableSensor := enableSensor st;
         eventSource := eventSource st;
         messages := if (100 <? List.length unshifted)%nat
                     then removelast unshifted else unshifted;
         created := created st;
         closed := closed st;
         emitted := (emitted st ++ [SensorData data])%list |}
  end.

Definition onopen (st : State) : State :=
  {| modelValue := modelValue st;
     holder := holder st;
     sensorUri := sensorUri st;
     connectionStatus := Some "Connected";
     enableSensor := enableSensor st;
     eventSource := eventSource st;
     messages := messages st;
     created := created st;
     closed := closed st;
     emitted := emitted st |}.

(** The [onerror] callback; [is_closed] tells whether the [readyState] of
    the current source is [EventSource.CLOSED].  With no current source the
    read of [readyState] throws. *)
Definition onerror (is_closed : bool) (st : State) : State :=
  match eventSource st with
  | None => st
  | Some _ =>
      {| modelValue := modelValue st;
         holder := holder st;
         sensorUri := sensorUri st;
         connectionStatus := Some (if is_closed then "" else "Error");
         enableSensor := enableSensor st;
         eventSource := eventSource st;
         messages := messages st;
         created := created st;
         closed := closed st;
         emitted := emitted st |}
  end.

Definition handleSensor (st : State) : State :=
  if enableSensor st then closeConnection st else initEventSource st.

Definition handleToggle (key : string) (st : State) : State :=
  let next := next key (holder st) (modelValue st) in
  {| modelValue := modelValue st;
     holder := holder st;
     sensorUri := sensorUri st;
     connectionStatus := connectionStatus st;
     enableSensor := enableSensor st;
     eventSource := eventSource st;
     messages := messages st;
     created := created st;
     closed := closed st;
     emitted := (emitted st ++ [UpdateModelValue next])%list |}.

(** What happens to an instance: the two handlers that the template
    calls, the callbacks of an event source, and the parent passing
    another [modelValue], held in some way. *)
Inductive Event : Type :=
  | HandleSensor
  | HandleToggle (key : string)
  | Message (event_data : string)
  | Open
  | Error (is_closed : bool)
  | SetModelValue (given : object) (holder : proxy).

Definition handle (st : State) (ev : Event) : State :=
  match ev with
  | HandleSensor => handleSensor st
  | HandleToggle key => handleToggle key st
  | Message event_data => onmessage event_data st
  | Open => onopen st
  | Error is_closed => onerror is_closed st
  | SetModelValue given holder =>
      {| modelValue := given;
         holder := holder;
         sensorUri := sensorUri st;
         connectionStatus := connectionStatus st;
         enableSensor := enableSensor st;
         eventSource := eventSource st;
         messages := messages st;
         created := created st;
         closed := closed st;
         emitted := emitted st |}
  end.

Definition run (st : State) (evs : list Event) : State :=
  fold_left handle evs st.

(** The data of the messages that parse, oldest first. *)
Fixpoint parsed (evs : list Event) : list Data :=
  match evs with
  | [] => []
  | Message event_data :: rest =>
      match JSON_parse event_data with
      | Some data => data :: parsed rest
      | None => parsed rest
      end
  | _ :: rest => parsed rest
  end.

Definition is_HandleSensor (ev : Event) : bool :=
  match ev with
  | HandleSensor => true
  | _ => false
  end.

End Component.

Arguments UpdateModelValue {Data}.
Arguments SensorData {Data}.
Arguments modelValue {Data}.
Arguments holder {Data}.
Arguments sensorUri {Data}.
Arguments connectionStatus {Data}.
Arguments enableSensor {Data}.
Arguments eventSource {Data}.
Arguments messages {Data}.
Arguments created {Data}.
Arguments closed {Data}.
Arguments emitted {Data}.
Arguments setup {Data}.
Arguments closeConnection {Data}.
Arguments initEventSource {Data}.
Arguments onmessage {Data}.
Arguments onopen {Data}.
Arguments onerror {Data}.
Arguments handleSensor {Data}.
Arguments handleToggle {Data}.
Arguments handle {Data}.
Arguments run {Data}.
Arguments parsed {Data}.

End Options.

Import JS Slider.

#[local] Set Warnings "-inexact-float".
#[local] Open Scope string_scope.
#[local] Open Scope Z_scope.

(** ** The number model agrees with the kernel's doubles

    The decimal reader and writer of the model, checked against the
    literals of the kernel's binary64 arithmetic. *)

Example Number_reads_literals :
  map Number ["0.1"; "1.7"; "1.7000000000000002"; "3.6"; "-5"; " 100 "; "0.25";
              "1e21"; "0x1F"; ".5"; "9007199254740993"]
  = map lit [0.1; 1.7; 1.7000000000000002; 3.6; -5; 100; 0.25;
             1e21; 31; 0.5; 9007199254740992]%float.
Proof. vm_compute. reflexivity. Qed.

Example Number_of_text_that_is_no_number :
  map Number ["abc"; "1e"; "-"; "."; "1.2.3"; "Infinity"; "-Infinity"; ""]
  = [NaN; NaN; NaN; NaN; NaN; Infinity; S754_infinity true; pzero].
Proof. vm_compute. reflexivity. Qed.

Example String_writes_literals :
  map String_ (map lit [0.1; 1.7; 1.7000000000000002; 1; 100; 0.25; -0.5; 1e21;
                        1e-7; 1.5e-7; 0.000001; 123.456; 0.30000000000000004]%float)
  = ["0.1"; "1.7"; "1.7000000000000002"; "1"; "100"; "0.25"; "-0.5"; "1e+21";
     "1e-7"; "1.5e-7"; "0.000001"; "123.456"; "0.30000000000000004"].
Proof. vm_compute. reflexivity. Qed.

Example Math_round_ties :
  map Math_round (map lit [0.5; 1.5; 2.5; -0.5; -1.5; -2.5; 3.6; -3.6; 0.4; -0.4]%float)
  = map lit [1; 2; 3; -0; -1; -2; 4; -4; 0; -0]%float.
Proof. vm_compute. reflexivity. Qed.

(** ** Facts about the number model *)

(** [Object.is] holds of two numbers exactly when they are the same. *)
Lemma same_value_eq (x y : number) : same_value x y = true -> x = y.
Proof.
  destruct x as [s1|s1| |s1 m1 e1], y as [s2|s2| |s2 m2 e2]; simpl;
    try discriminate; try reflexivity.
  - intros H. apply Bool.eqb_prop in H. now subst.
  - intros H. apply Bool.eqb_prop in H. now subst.
  - intros H. apply andb_prop in H as [H He]. apply andb_prop in H as [Hs Hm].
    apply Bool.eqb_prop in Hs. apply Pos.eqb_eq in Hm. apply Z.eqb_eq in He.
    now subst.
Qed.

Lemma same_value_refl (x : number) : same_value x x = true.
Proof.
  destruct x as [s|s| |s m e]; simpl; try reflexivity.
  - now destruct s.
  - now destruct s.
  - rewrite Pos.eqb_refl, Z.eqb_refl. now destruct s.
Qed.

(** A number that is [===] to some number is not NaN. *)
Lemma strict_eq_not_NaN (x y : number) : strict_eq x y = true -> x <> NaN.
Proof. intros H ->. discriminate H. Qed.

(** [x === y] makes [y - x] a zero or NaN, that is falsy: equal finite
    numbers have the same sign, mantissa and exponent. *)
Lemma sub_of_strict_eq_falsy (x y : number) :
  strict_eq x y = true -> truthy (sub y x) = false.
Proof.
  unfold strict_eq, SFeqb.
  destruct x as [s1|s1| |s1 m1 e1], y as [s2|s2| |s2 m2 e2]; simpl;
    try discriminate;
    try (destruct s1, s2; simpl; (discriminate || reflexivity)).
  destruct s1, s2; try discriminate;
    destruct (Z.compare_spec e1 e2) as [He|He|He]; try discriminate;
    subst e2; intros H;
    assert (Hm : m1 = m2)
      by (apply Pos.compare_eq; unfold Pos.compare;
          destruct (Pos.compare_cont Eq m1 m2); simpl in H;
          (reflexivity || discriminate));
    subst m2; unfold sub, SFsub, shl_align;
    rewrite Z.min_id, Z.sub_diag; simpl;
    rewrite ?Z.pos_sub_diag; reflexivity.
Qed.

(** [<] is asymmetric, hence irreflexive. *)
Lemma lt_asym (x y : number) : lt x y = true -> lt y x = false.
Proof.
  unfold lt, SFltb.
  destruct x as [s1|s1| |s1 m1 e1], y as [s2|s2| |s2 m2 e2]; cbn [SFcompare];
    try discriminate; try reflexivity;
    try (destruct s1; (discriminate || reflexivity));
    try (destruct s2; (discriminate || reflexivity));
    try (destruct s1, s2; (discriminate || reflexivity)).
  destruct s1, s2; try discriminate; try reflexivity;
    rewrite (Z.compare_antisym e1 e2);
    destruct (Z.compare e1 e2); cbn [CompOpp]; try discriminate; try reflexivity;
    (assert (Hm : Pos.compare_cont Eq m2 m1 = CompOpp (Pos.compare_cont Eq m1 m2))
      by (rewrite Pos.compare_cont_antisym; reflexivity));
    rewrite Hm; destruct (Pos.compare_cont Eq m1 m2); cbn [CompOpp];
    (discriminate || reflexivity).
Qed.

Lemma lt_irrefl (x : number) : lt x x = false.
Proof. destruct (lt x x) eqn:E; [|reflexivity]. now rewrite (lt_asym _ _ E) in E. Qed.

(** Clamping into a range of no width gives its one point. *)
Lemma clamp_zero_width (c x : number) :
  c <> NaN -> x <> NaN -> Math_min c (Math_max c x) = c.
Proof.
  unfold NaN. intros Hc Hx.
  destruct c as [sc|sc| |sc mc ec], x as [sx|sx| |sx mx ex];
    try congruence; cbn [Math_max Math_min].
  all: try (destruct sc, sx; reflexivity).
  all: unfold Math_max, Math_min.
  all: repeat match goal with
       | |- context [if lt ?a ?b then _ else _] =>
           let E := fresh "E" in destruct (lt a b) eqn:E
       end.
  all: try reflexivity.
  all: try (destruct sc; reflexivity).
  all: match goal with
       | E1 : lt ?a ?b = true, E2 : lt ?b ?a = true |- _ =>
           rewrite (lt_asym _ _ E1) in E2; discriminate
       end.
Qed.

(** Every number but NaN is [===] to itself. *)
Lemma strict_eq_refl (x : number) : x <> NaN -> strict_eq x x = true.
Proof.
  unfold NaN, strict_eq, SFeqb. destruct x as [s|s| |s m e]; try congruence;
    intros _; cbn [SFcompare]; try reflexivity.
  - now destruct s.
  - rewrite Z.compare_refl.
    change (Pos.compare_cont Eq m m) with (Pos.compare m m).
    rewrite Pos.compare_refl. now destruct s.
Qed.

(** [x - x] is [+0] for a finite [x]. *)
Lemma sub_diag_zero (x : number) :
  isFinite x = true -> sub x x = pzero.
Proof.
  destruct x as [z|z| |z m e]; try discriminate; intros _.
  - now destruct z.
  - unfold sub, SFsub, shl_align. rewrite Z.min_id, Z.sub_diag.
    destruct z; simpl; rewrite ?Z.pos_sub_diag; reflexivity.
Qed.

(** *** The order of numbers *)

(** Comparing the other way round gives the opposite answer. *)
Lemma SFcompare_antisym (x y : number) :
  SFcompare y x = option_map CompOpp (SFcompare x y).
Proof.
  destruct x as [s1|s1| |s1 m1 e1], y as [s2|s2| |s2 m2 e2]; cbn [SFcompare option_map];
    try reflexivity;
    try (destruct s1; reflexivity);
    try (destruct s2; reflexivity);
    try (destruct s1, s2; reflexivity).
  assert (Hm : Pos.compare_cont Eq m2 m1 = CompOpp (Pos.compare_cont Eq m1 m2))
    by (rewrite Pos.compare_cont_antisym; reflexivity).
  destruct s1, s2; try reflexivity;
    rewrite (Z.compare_antisym e1 e2);
    destruct (Z.compare e1 e2); cbn [CompOpp]; try reflexivity;
    rewrite Hm; destruct (Pos.compare_cont Eq m1 m2); reflexivity.
Qed.

(** Two numbers that are not NaN are comparable. *)
Lemma le_of_not_lt (x y : number) :
  x <> NaN -> y <> NaN -> lt y x = false -> le x y = true.
Proof.
  unfold NaN, lt, le, SFltb, SFleb. intros Hx Hy.
  rewrite (SFcompare_antisym x y).
  destruct (SFcompare x y) as [[| |]|] eqn:E; cbn; try discriminate; try reflexivity.
  destruct x, y; try congruence; discriminate.
Qed.

Lemma le_of_lt (x y : number) : lt x y = true -> le x y = true.
Proof.
  unfold lt, le, SFltb, SFleb. now destruct (SFcompare x y) as [[| |]|].
Qed.

Lemma le_refl (x : number) : x <> NaN -> le x x = true.
Proof.
  intros Hx. apply le_of_not_lt; try assumption. apply lt_irrefl.
Qed.

(** [Math.max(lo, s)] is at least [lo]; [Math.min(hi, c)] stays between
    [lo] and [hi] when [c] is at least [lo]. *)
Lemma Math_max_lower (lo s : number) :
  lo <> NaN -> s <> NaN ->
  Math_max lo s <> NaN /\ le lo (Math_max lo s) = true.
Proof.
  intros Hlo Hs.
  assert (H : Math_max lo s = (if lt lo s then s else lo) \/
              exists a b, lo = S754_zero a /\ Math_max lo s = S754_zero b).
  { unfold NaN in *. destruct lo, s; try congruence; cbn [Math_max];
      try (left; reflexivity).
    right. do 2 eexists. repeat split. }
  destruct H as [-> | (a & b & -> & ->)].
  - destruct (lt lo s) eqn:E; split; try assumption.
    + now apply le_of_lt.
    + now apply le_refl.
  - split; [discriminate|reflexivity].
Qed.

Lemma Math_min_between (lo hi c : number) :
  c <> NaN -> le lo c = true -> le lo hi = true ->
  le lo (Math_min hi c) = true /\ le (Math_min hi c) hi = true.
Proof.
  intros Hc Hlc Hlh.
  assert (Hhi : hi <> NaN) by (intros ->; destruct lo; discriminate).
  assert (H : Math_min hi c = (if lt c hi then c else hi) \/
              exists a b d, hi = S754_zero a /\ c = S754_zero d /\
                            Math_min hi c = S754_zero b).
  { unfold NaN in *. destruct hi, c; try congruence; cbn [Math_min];
      try (left; reflexivity).
    right. do 3 eexists. repeat split. }
  destruct H as [-> | (a & b & d & -> & -> & ->)].
  - destruct (lt c hi) eqn:E; split; try assumption.
    + now apply le_of_lt.
    + now apply le_refl.
  - split; [|reflexivity].
    destruct lo as [z|z| |z m e]; try discriminate; try reflexivity; exact Hlc.
Qed.

(** The value clamped into [lo, hi], for [lo <= hi], is NaN or lies in
    [lo, hi]. *)
Lemma clamp_in_range (lo hi s : number) :
  le lo hi = true ->
  Math_min hi (Math_max lo s) = NaN \/
  (le lo (Math_min hi (Math_max lo s)) = true /\
   le (Math_min hi (Math_max lo s)) hi = true).
Proof.
  intros Hle.
  assert (Hlo : lo <> NaN) by (intros ->; discriminate).
  destruct s as [ss|ss| |ss ms es] eqn:Es;
    [| |left; destruct lo, hi; reflexivity|].
  all: right; rewrite <- Es.
  all: assert (Hs : s <> NaN) by (subst s; discriminate).
  all: destruct (Math_max_lower lo s Hlo Hs) as [Hn Hl].
  all: now apply Math_min_between.
Qed.

(** *** Rounding to a double *)

(** The number of binary digits of a mantissa, from its bounds. *)
Lemma digits2_pos_size (p : positive) : digits2_pos p = Pos.size p.
Proof. induction p; simpl; congruence. Qed.

Lemma digits2_pos_log2 (p : positive) :
  Zpos (digits2_pos p) = Z.log2 (Zpos p) + 1.
Proof.
  rewrite digits2_pos_size. destruct p; simpl; try reflexivity; lia.
Qed.

Lemma digits2_pos_unique (p : positive) (k : Z) :
  0 < k -> 2 ^ (k - 1) <= Zpos p < 2 ^ k -> Zpos (digits2_pos p) = k.
Proof.
  intros Hk H. rewrite digits2_pos_log2.
  rewrite (Z.log2_unique (Zpos p) (k - 1)); [lia|lia|].
  now replace (Z.succ (k - 1)) with k by lia.
Qed.

(** Shifting a mantissa right by one bit, and by [n] bits. *)
Lemma shr_1_m (mrs : shr_record) :
  0 <= shr_m mrs -> shr_m (shr_1 mrs) = shr_m mrs / 2.
Proof.
  destruct mrs as [m r s]. cbn [shr_m]. intros Hm.
  rewrite <- Z.div2_div. destruct m as [|[p|p|]|]; try lia; reflexivity.
Qed.

Lemma iter_pos_shr_1_m (n : positive) (mrs : shr_record) :
  0 <= shr_m mrs ->
  shr_m (iter_pos shr_1 n mrs) = shr_m mrs / 2 ^ Zpos n.
Proof.
  revert mrs. induction n as [n IH|n IH|]; intros mrs Hm; cbn [iter_pos].
  - assert (H1 : 0 <= shr_m (shr_1 mrs))
      by (rewrite shr_1_m by lia; apply Z.div_pos; lia).
    assert (H2 : 0 <= shr_m (iter_pos shr_1 n (shr_1 mrs)))
      by (rewrite IH by lia; apply Z.div_pos; lia).
    rewrite IH, IH, shr_1_m by lia.
    rewrite !Z.div_div by lia.
    f_equal. replace (Z.pos n~1) with (1 + Z.pos n + Z.pos n) by lia.
    rewrite !Z.pow_add_r by lia. change (2 ^ 1) with 2. ring.
  - assert (H2 : 0 <= shr_m (iter_pos shr_1 n mrs))
      by (rewrite IH by lia; apply Z.div_pos; lia).
    rewrite IH, IH by lia.
    rewrite !Z.div_div by lia.
    f_equal. replace (Z.pos n~0) with (Z.pos n + Z.pos n) by lia.
    rewrite Z.pow_add_r by lia. ring.
  - rewrite shr_1_m by lia. reflexivity.
Qed.

Lemma shr_m_of_loc (m : Z) (l : location) : shr_m (shr_record_of_loc m l) = m.
Proof. now destruct l as [|[]]. Qed.

Lemma Zdigits2_lower (m : Z) : 0 < m -> 2 ^ (Zdigits2 m - 1) <= m.
Proof.
  destruct m as [|p|p]; try lia. intros _. cbn [Zdigits2].
  rewrite digits2_pos_log2.
  replace (Z.log2 (Z.pos p) + 1 - 1) with (Z.log2 (Z.pos p)) by lia.
  apply Z.log2_spec. lia.
Qed.

Lemma Zdigits2_pos (m : Z) : 0 < m -> 0 < Zdigits2 m.
Proof. destruct m; cbn; lia. Qed.

(** Shifting a positive mantissa to its place in the format leaves it
    positive, as long as the exponent is not below the least one. *)
Lemma shr_fexp_positive (m e : Z) (l : location) :
  0 < m -> SpecFloat.emin prec emax <= e ->
  0 < shr_m (fst (shr_fexp prec emax m e l)) /\
  SpecFloat.emin prec emax <= snd (shr_fexp prec emax m e l).
Proof.
  intros Hm He. unfold shr_fexp, shr.
  pose proof (Zdigits2_lower m Hm) as Hd.
  pose proof (Zdigits2_pos m Hm) as Hd0.
  set (d := Zdigits2 m) in *.
  assert (Hn : fexp prec emax (d + e) - e < d).
  { unfold fexp, SpecFloat.emin, prec, emax in *. lia. }
  destruct (fexp prec emax (d + e) - e) as [|n|n] eqn:En; cbn [fst snd].
  - rewrite shr_m_of_loc. split; assumption.
  - rewrite iter_pos_shr_1_m by (rewrite shr_m_of_loc; lia).
    rewrite shr_m_of_loc. split; [|lia].
    apply Z.div_str_pos. split; [lia|].
    apply Z.le_trans with (2 ^ (d - 1)); [|exact Hd].
    apply Z.pow_le_mono_r; lia.
  - rewrite shr_m_of_loc. split; assumption.
Qed.

(** Rounding to nearest does not lower the truncated mantissa, so a
    positive integer is never rounded to zero. *)
Lemma round_nearest_even_ge (m : Z) (l : location) :
  m <= round_nearest_even m l.
Proof. destruct l as [|[]]; cbn; try destruct (Z.even m); lia. Qed.

Lemma binary_round_aux_truthy (sx : bool) (m e : Z) (l : location) :
  0 < m -> SpecFloat.emin prec emax <= e ->
  truthy (binary_round_aux prec emax sx m e l) = true.
Proof.
  intros Hm He. unfold binary_round_aux.
  destruct (shr_fexp_positive m e l Hm He) as [H1 H1e].
  destruct (shr_fexp prec emax m e l) as [mrs' e'] eqn:E1. cbn [fst snd] in *.
  pose proof (round_nearest_even_ge (shr_m mrs') (loc_of_shr_record mrs')) as Hr.
  set (r := round_nearest_even _ _) in *.
  destruct (shr_fexp_positive r e' loc_Exact ltac:(lia) H1e) as [H2 _].
  destruct (shr_fexp prec emax r e' loc_Exact) as [mrs'' e''] eqn:E2.
  cbn [fst] in H2.
  destruct (shr_m mrs''); try lia.
  now destruct (e'' <=? emax - prec).
Qed.

Lemma of_Z_truthy (n : Z) : 0 < n -> truthy (of_Z n) = true.
Proof.
  destruct n as [|p|p]; try lia. intros _.
  unfold of_Z, binary_normalize, binary_round, shl_align.
  set (ex' := fexp prec emax (Z.pos (digits2_pos p) + 0)).
  assert (Hex : SpecFloat.emin prec emax <= ex') by (subst ex'; unfold fexp; lia).
  destruct (ex' - 0) as [|k|k] eqn:Ek;
    apply binary_round_aux_truthy; try lia;
    vm_compute; discriminate.
Qed.

(** The factor of the last rounding is never zero. *)
Lemma pow10_truthy (n : nat) : truthy (pow10 n) = true.
Proof. apply of_Z_truthy. apply Z.pow_pos_nonneg; lia. Qed.

(** *** [Math.round] *)

(** The power of two that [Math_round] divides by. *)
Lemma iter_xO_pow2 (p : positive) : Zpos (Pos.iter xO 1%positive p) = 2 ^ Zpos p.
Proof.
  induction p as [|p IH] using Pos.peano_ind.
  - reflexivity.
  - rewrite Pos.iter_succ, Pos2Z.inj_xO, IH, Pos2Z.inj_succ, Z.pow_succ_r by lia.
    reflexivity.
Qed.

(** [Math.round] takes a tie upwards: the double [m * 2^-p] whose value is
    [k + 1/2] is rounded to [k + 1], and its opposite to [-k]. *)
Lemma Math_round_tie (s : bool) (m p : positive) (k : Z) :
  0 <= k -> 2 * Zpos m = (2 * k + 1) * 2 ^ Zpos p ->
  Math_round (S754_finite s m (Zneg p))
  = if s then (if k =? 0 then nzero else of_Z (- k)) else of_Z (k + 1).
Proof.
  intros Hk Hm. unfold Math_round. cbv zeta.
  rewrite iter_xO_pow2.
  assert (Hp : 0 < 2 ^ Zpos p) by (apply Z.pow_pos_nonneg; lia).
  destruct s.
  - replace ((2 * Z.neg m + 2 ^ Z.pos p) / (2 * 2 ^ Z.pos p)) with (- k).
    + destruct (Z.eqb_spec k 0) as [->|Hk0]; [reflexivity|].
      destruct (- k) eqn:E; try lia; reflexivity.
    + apply Z.div_unique with (r := 0); [lia|].
      rewrite <- Pos2Z.opp_pos. lia.
  - replace ((2 * Z.pos m + 2 ^ Z.pos p) / (2 * 2 ^ Z.pos p)) with (k + 1).
    + destruct (k + 1) eqn:E; try lia; reflexivity.
    + apply Z.div_unique with (r := 0); lia.
Qed.

(** A positive number whose exact value is [k + 1/2] is such a double. *)
Lemma to_Q_half (x : number) (q : Q) (k : Z) :
  0 <= k -> to_Q x = Some q -> (q == inject_Z k + (1 # 2))%Q ->
  exists m e, x = S754_finite false m (Zneg e) /\
              2 * Zpos m = (2 * k + 1) * 2 ^ Zpos e.
Proof.
  intros Hk Hx Hq.
  destruct x as [s|s| |s m e]; try discriminate; cbn [to_Q] in Hx.
  - injection Hx as <-. unfold Qeq in Hq. cbn in Hq. lia.
  - destruct e as [|e|e]; injection Hx as <-; unfold Qeq in Hq; cbn in Hq.
    + destruct s; lia.
    + exfalso. destruct s; lia.
    + rewrite iter_xO_pow2 in Hq.
      assert (0 < 2 ^ Zpos e) by (apply Z.pow_pos_nonneg; lia).
      destruct s.
      * exfalso. assert (Z.neg m < 0) by lia. nia.
      * exists m, e. split; [reflexivity|]. lia.
Qed.

(** For instance 2.5 and -2.5. *)
Example Math_round_tie_2_5 :
  Math_round (lit 2.5%float) = of_Z 3 /\ Math_round (lit (-2.5)%float) = of_Z (-2).
Proof. vm_compute. split; reflexivity. Qed.

(** ** The derivations do not read [modelValue] *)

(** [snappedValue] in terms of its constant [stepsFromMin]. *)
Lemma snappedValue_of_steps (p : Props) (raw : maybe_number) :
  snappedValue_of p raw
  = roundToStepPrecision p
      (Math_min (max p)
         (Math_max (min p)
            (add (min p) (mul (stepsFromMin_of p raw) (effective_step p))))).
Proof. reflexivity. Qed.

Lemma snappedValue_of_ext (p q : Props) (raw : maybe_number) :
  min p = min q -> max p = max q -> step p = step q ->
  snappedValue_of p raw = snappedValue_of q raw.
Proof.
  intros Hmin Hmax Hstep.
  unfold snappedValue_of, roundToStepPrecision, stepDecimals.
  now rewrite Hmin, Hmax, Hstep.
Qed.

(** ** The watcher of [modelValue] *)

(** The callback leaves an instance that is in sync as it is. *)
Lemma watch_modelValue_in_sync (st : State) (value : maybe_number) :
  strict_eq (nullish_or value (min (props st))) (snappedValue st) = true ->
  watch_modelValue value st = st.
Proof.
  intros H. unfold watch_modelValue, strict_neq. now rewrite H.
Qed.

(** In particular the quantized value itself, unless it is NaN, which is
    [!==] to itself. *)
Lemma watch_modelValue_same_number (st : State) :
  snappedValue st <> NaN ->
  watch_modelValue (Num (snappedValue st)) st = st.
Proof.
  intros H. apply watch_modelValue_in_sync. cbn [nullish_or].
  now apply strict_eq_refl.
Qed.

(** Assigning to the ref stores the number assigned, whether or not the
    watchers are notified. *)
Lemma rawSliderValue_set (x : number) (st : State) :
  rawSliderValue (set_rawSliderValue x st) = Num x.
Proof.
  unfold set_rawSliderValue.
  destruct (same_maybe (Num x) (rawSliderValue st)) eqn:E.
  - destruct (rawSliderValue st) as [ | |y]; try discriminate.
    simpl in E. apply same_value_eq in E. now subst.
  - unfold run_watch_snappedValue.
    match goal with |- context [if ?b then _ else _] => destruct b end;
      reflexivity.
Qed.

(** ** No feedback loop *)

(** A number put through the derivation as NaN comes out as NaN. *)
Lemma snappedValue_of_NaN (p : Props) : snappedValue_of p (Num NaN) = NaN.
Proof.
  unfold snappedValue_of, roundToStepPrecision. cbn [nullish_or].
  assert (H1 : Math_min (max p) (Math_max (min p) NaN) = NaN)
    by (destruct (min p), (max p); reflexivity).
  rewrite H1.
  assert (H2 : forall y z, add y (mul (Math_round (div (sub NaN y) z)) z) = NaN)
    by (intros y z; destruct y, z; reflexivity).
  rewrite H2.
  rewrite H1. reflexivity.
Qed.

(** Set-up and every handler leave the instance settled. *)
Lemma run_watch_snappedValue_settled (st : State) :
  settled (run_watch_snappedValue st).
Proof.
  unfold settled, run_watch_snappedValue.
  destruct (same_value (snappedValue st) (seen st)) eqn:E.
  - symmetry. now apply same_value_eq.
  - reflexivity.
Qed.

Lemma set_rawSliderValue_settled (x : number) (st : State) :
  settled st -> settled (set_rawSliderValue x st).
Proof.
  intros H. unfold set_rawSliderValue.
  destruct (same_maybe _ _); [exact H|apply run_watch_snappedValue_settled].
Qed.

Lemma setup_settled (a : Attrs) : settled (setup a).
Proof. reflexivity. Qed.

Lemma onRangeInput_settled (text : string) (st : State) :
  settled st -> settled (onRangeInput text st).
Proof. apply set_rawSliderValue_settled. Qed.

Lemma onNumberInput_settled (text : string) (st : State) :
  settled st -> settled (onNumberInput text st).
Proof.
  intros H. unfold onNumberInput.
  destruct (isFinite _); [now apply set_rawSliderValue_settled|exact H].
Qed.

Lemma watch_modelValue_settled (value : maybe_number) (st : State) :
  settled st -> settled (watch_modelValue value st).
Proof.
  intros H. unfold watch_modelValue.
  destruct (strict_neq _ _); [now apply set_rawSliderValue_settled|exact H].
Qed.

Lemma update_modelValue_settled (given : maybe_number) (st : State) :
  settled st -> settled (update_modelValue given st).
Proof.
  intros H. unfold update_modelValue.
  destruct (same_maybe _ _); [exact H|].
  apply watch_modelValue_settled. exact H.
Qed.

(** When the parent hands the quantized value back as the new [modelValue],
    nothing more is emitted; this holds of NaN as well, which the callback
    does assign. *)
Lemma upstream_echo_emits_nothing (st : State) :
  settled st ->
  emitted (update_modelValue (Num (snappedValue st)) st) = emitted st.
Proof.
  intros Hst. unfold update_modelValue. cbn [modelValue_with_default].
  destruct (same_maybe _ _); [reflexivity|].
  set (st' := {| props := _; rawSliderValue := _; seen := _; emitted := _ |}).
  assert (Hsn : snappedValue st' = snappedValue st) by reflexivity.
  assert (Hem : emitted st' = emitted st) by reflexivity.
  rewrite <- Hem, <- Hsn.
  destruct (strict_eq (snappedValue st') (snappedValue st')) eqn:E.
  - rewrite watch_modelValue_in_sync; [reflexivity|exact E].
  - assert (HN : snappedValue st' = NaN).
    { destruct (snappedValue st') eqn:Ev; try reflexivity;
        rewrite strict_eq_refl in E; (discriminate || (unfold NaN; congruence)). }
    unfold watch_modelValue, strict_neq. cbn [nullish_or]. rewrite E. cbn [negb].
    rewrite HN. unfold set_rawSliderValue.
    destruct (same_maybe _ _); [reflexivity|].
    unfold run_watch_snappedValue, snappedValue. cbn [props rawSliderValue seen].
    rewrite snappedValue_of_NaN.
    assert (Hseen : seen st' = NaN) by (rewrite <- HN, Hsn; exact Hst).
    rewrite Hseen. reflexivity.
Qed.

(** C1. When the value [v] received from upstream is [===] to the quantized
    value derived at that moment, the watcher of [modelValue] changes
    nothing: the instance is the same, so [rawSliderValue] is not assigned
    and no [update:modelValue] is emitted, also when [v] arrives as a change
    of the prop.  Whenever the callback does change [rawSliderValue], the
    value received ([min] standing in for an absent one) differs ([!==])
    from the quantized value and is what the ref now holds.  And an
    instance between two events emits nothing when the parent hands its
    quantized value back. *)
Theorem setFromUpstream_in_sync_is_silent
    (st : State) (v : number)
    (Hsync : strict_eq v (snappedValue st) = true) :
  watch_modelValue (Num v) st = st /\
  rawSliderValue (watch_modelValue (Num v) st) = rawSliderValue st /\
  emitted (watch_modelValue (Num v) st) = emitted st /\
  rawSliderValue (update_modelValue (Num v) st) = rawSliderValue st /\
  emitted (update_modelValue (Num v) st) = emitted st /\
  (forall incoming : maybe_number,
      rawSliderValue (watch_modelValue incoming st) <> rawSliderValue st ->
      strict_neq (nullish_or incoming (min (props st))) (snappedValue st) = true /\
      rawSliderValue (watch_modelValue incoming st)
        = Num (nullish_or incoming (min (props st)))) /\
  (settled st ->
   emitted (update_modelValue (Num (snappedValue st)) st) = emitted st).
Proof.
  pose proof (watch_modelValue_in_sync st (Num v) Hsync) as Hsame.
  split; [exact Hsame|]. rewrite Hsame.
  split; [reflexivity|]. split; [reflexivity|].
  assert (Hup : rawSliderValue (update_modelValue (Num v) st) = rawSliderValue st
                /\ emitted (update_modelValue (Num v) st) = emitted st).
  { unfold update_modelValue.
    destruct (same_maybe _ _); [now split|].
    rewrite watch_modelValue_in_sync; [now split|].
    exact Hsync. }
  destruct Hup as [Hraw Hemit].
  split; [exact Hraw|]. split; [exact Hemit|].
  split; [|apply upstream_echo_emits_nothing].
  intros incoming Hchanged. unfold watch_modelValue in Hchanged |- *.
  destruct (strict_neq (nullish_or incoming (min (props st))) (snappedValue st)).
  - split; [reflexivity|]. apply rawSliderValue_set.
  - now elim Hchanged.
Qed.

(** An instance for C1: the slider set up with [modelValue = 3] is in sync
    with the value 3. *)
Lemma setFromUpstream_in_sync_is_silent_witness :
  let st := setup {| attr_min := None; attr_max := None; attr_step := None;
                     attr_modelValue := Num (of_Z 3); attr_showInput := None |} in
  strict_eq (of_Z 3) (snappedValue st) = true /\
  watch_modelValue (Num (of_Z 3)) st = st.
Proof.
  intros st. split; [vm_compute; reflexivity|].
  apply (setFromUpstream_in_sync_is_silent st (of_Z 3)).
  vm_compute; reflexivity.
Defined.

(** ** Set-up *)

(** C4, as stated, fails: with no prop given the ref starts at the declared
    default of [modelValue], which is 1, while [min] is 0. *)
Lemma setup_without_modelValue_is_not_min :
  rawSliderValue (setup no_attrs) = Num (of_Z 1) /\
  min (props (setup no_attrs)) = of_Z 0 /\
  strict_eq (of_Z 1) (of_Z 0) = false.
Proof. vm_compute. repeat split. Qed.

(** C4, amended. At set-up [rawSliderValue] is the upstream value when one
    is given; when the upstream value is absent it is 1, the declared
    default of the prop, whatever [min] is; [min] is used only for an
    upstream value of [null].  The defaults of [min], [max] and [step] are
    0, 100 and 1, and nothing is emitted at set-up. *)
Theorem setup_initial_rawSliderValue (a : Attrs) :
  rawSliderValue (setup a)
    = Num (match attr_modelValue a with
           | Num v => v
           | Undefined => of_Z 1
           | Null => with_default (attr_min a) (of_Z 0)
           end) /\
  emitted (setup a) = [] /\
  min (props (setup no_attrs)) = of_Z 0 /\
  max (props (setup no_attrs)) = of_Z 100 /\
  step (props (setup no_attrs)) = of_Z 1.
Proof.
  split; [|repeat split].
  unfold setup. simpl. now destruct (attr_modelValue a).
Qed.

(** ** The input handlers *)

(** The handler of the range input stores whatever the text converts to,
    NaN included, and the NaN is emitted upstream. *)
Lemma onRangeInput_stores_NaN :
  isFinite (Number "abc") = false /\
  rawSliderValue (setup no_attrs) = Num (of_Z 1) /\
  rawSliderValue (onRangeInput "abc" (setup no_attrs)) = Num NaN /\
  emitted (onRangeInput "abc" (setup no_attrs)) = [NaN].
Proof. vm_compute. repeat split. Qed.

(** The guard of the number input.  A text whose conversion
    [Number(text)] is not finite (NaN or an infinity) is ignored by the
    handler of the number input: the instance, and with it
    [rawSliderValue], stays as it was.  The handler of the range input has
    no such guard: it assigns the converted number to [rawSliderValue] in
    every case. *)
Theorem onNumberInput_ignores_non_finite
    (text : string) (st : State)
    (Hbad : isFinite (Number text) = false) :
  onNumberInput text st = st /\
  rawSliderValue (onRangeInput text st) = Num (Number text).
Proof.
  split.
  - unfold onNumberInput. now rewrite Hbad.
  - apply rawSliderValue_set.
Qed.

Lemma onNumberInput_ignores_non_finite_witness :
  isFinite (Number "abc") = false /\
  onNumberInput "abc" (setup no_attrs) = setup no_attrs /\
  rawSliderValue (onRangeInput "abc" (setup no_attrs)) = Num (Number "abc").
Proof.
  split; [vm_compute; reflexivity|].
  apply (onNumberInput_ignores_non_finite "abc" (setup no_attrs)).
  vm_compute; reflexivity.
Defined.

(** A finite number typed into the number input is stored. *)
Lemma onNumberInput_stores_finite (text : string) (st : State) :
  isFinite (Number text) = true ->
  rawSliderValue (onNumberInput text st) = Num (Number text).
Proof.
  intros H. unfold onNumberInput. rewrite H. apply rawSliderValue_set.
Qed.

(** The empty text, which the number input reports while the field holds
    no valid number, converts to 0 and is stored as such. *)
Example onNumberInput_empty_text :
  rawSliderValue (onNumberInput "" (setup no_attrs)) = Num (of_Z 0).
Proof. vm_compute. reflexivity. Qed.

(** C5 at failing inputs.  A number field reports the empty text while
    what it holds is no valid number; the empty text converts to 0, which
    is finite, so the handler of the number input does not reject it: on
    the slider with no prop given, whose raw position is 1, the raw
    position becomes 0 and 0 is emitted, and so it is for a text of white
    space.  The handler of the range input rejects nothing: a text that is
    no number makes the raw position NaN and NaN is emitted, and the text
    [Infinity] makes it infinite. *)
Theorem input_handlers_store_what_is_no_number :
  Number "" = of_Z 0 /\
  isFinite (Number "") = true /\
  rawSliderValue (setup no_attrs) = Num (of_Z 1) /\
  rawSliderValue (onNumberInput "" (setup no_attrs)) = Num (of_Z 0) /\
  emitted (onNumberInput "" (setup no_attrs)) = [of_Z 0] /\
  rawSliderValue (onNumberInput "  " (setup no_attrs)) = Num (of_Z 0) /\
  isFinite (Number "abc") = false /\
  rawSliderValue (onRangeInput "abc" (setup no_attrs)) = Num NaN /\
  emitted (onRangeInput "abc" (setup no_attrs)) = [NaN] /\
  isFinite (Number "Infinity") = false /\
  rawSliderValue (onRangeInput "Infinity" (setup no_attrs)) = Num Infinity /\
  emitted (onRangeInput "Infinity" (setup no_attrs)) = [of_Z 100].
Proof. vm_compute. repeat split. Qed.

(** ** Degenerate ranges *)

(** [positionFraction] is 0 on a range of no width. *)
Lemma sliderValPercent_zero_span (p : Props) (raw : maybe_number) :
  strict_eq (min p) (max p) = true -> sliderValPercent_of p raw = of_Z 0.
Proof.
  intros H. unfold sliderValPercent_of.
  now rewrite (sub_of_strict_eq_falsy _ _ H).
Qed.

(** On a range of no width [snappedValue] is [min] put through the last
    rounding, whatever the raw position. *)
Lemma quantize_zero_width (p : Props) (x : number) :
  max p = min p -> isFinite (min p) = true -> isFinite (step p) = true ->
  x <> NaN ->
  quantize p x = roundToStepPrecision p (min p).
Proof.
  intros Hmax Hmin Hstep Hx. unfold quantize, snappedValue_of.
  cbn [nullish_or]. rewrite Hmax.
  assert (Hc : min p <> NaN) by (intros E; rewrite E in Hmin; discriminate).
  rewrite (clamp_zero_width (min p) x) by assumption.
  set (s := or_else (step p) (of_Z 1)).
  assert (Hs : exists b m e, s = S754_finite b m e).
  { subst s. unfold or_else.
    destruct (step p) as [b|b| |b m e]; try discriminate; cbn [truthy]; eauto.
    all: eexists _, _, _; vm_compute; reflexivity. }
  destruct Hs as (b & m & e & ->).
  set (t := S754_finite b m e).
  assert (Hsn : add (min p) (mul (Math_round (div (sub (min p) (min p)) t)) t)
                <> NaN).
  { subst t. rewrite (sub_diag_zero _ Hmin). cbn.
    destruct (min p) as [z'|z'| |z' mm em]; try discriminate; cbn;
      try discriminate.
    destruct z', b; discriminate. }
  now rewrite clamp_zero_width.
Qed.

(** The range 5..5 with step 1: every raw position is quantized to 5, and
    the position fraction is 0. *)
Lemma quantize_5_5_1 (x : number) :
  x <> NaN ->
  quantize (config (of_Z 5) (of_Z 5) (of_Z 1)) x = of_Z 5 /\
  positionFraction (config (of_Z 5) (of_Z 5) (of_Z 1)) x = of_Z 0.
Proof.
  intros Hx. split.
  - rewrite quantize_zero_width by (assumption || reflexivity).
    vm_compute. reflexivity.
  - apply sliderValPercent_zero_span. reflexivity.
Qed.

(** The step the derivations divide by is never a zero or NaN. *)
Lemma effective_step_truthy (s : number) : truthy (or_else s (of_Z 1)) = true.
Proof. unfold or_else. destruct (truthy s) eqn:E; [exact E|reflexivity]. Qed.

(** The falsy numbers are the two zeros and NaN. *)
Lemma truthy_false_iff (x : number) :
  truthy x = false <-> x = pzero \/ x = nzero \/ x = NaN.
Proof.
  split.
  - destruct x as [[|]| | |]; simpl; intros H; try discriminate; auto.
  - intros [-> | [-> | ->]]; reflexivity.
Qed.

(** C6, as stated, fails for a negative step: it is used as it is.  With
    [min = 0], [max = 10] and the raw position 3.3, the step -0.5 gives 3.5
    where the step 1 gives 3. *)
Lemma negative_step_is_not_step_one :
  lt (lit (-0.5)%float) (of_Z 0) = true /\
  quantize (config (of_Z 0) (of_Z 10) (lit (-0.5)%float)) (lit 3.3%float)
    = lit 3.5%float /\
  quantize (config (of_Z 0) (of_Z 10) (of_Z 1)) (lit 3.3%float) = of_Z 3 /\
  strict_eq (lit 3.5%float) (of_Z 3) = false.
Proof. vm_compute. repeat split. Qed.

(** C6, amended. A step that is falsy (0, -0 or NaN) is replaced by 1: the
    quantized value and the number of decimals are those of the same range
    with step 1.  Neither the step nor the power of ten divided by is ever
    zero, and on a range with [min === max] the position fraction is 0
    without any division.  A negative step is not replaced. *)
Theorem falsy_step_is_step_one
    (p : Props) (raw : maybe_number)
    (Hstep : truthy (step p) = false) :
  snappedValue_of p raw = snappedValue_of (with_step p (of_Z 1)) raw /\
  stepDecimals p = stepDecimals (with_step p (of_Z 1)) /\
  (forall q : Props, truthy (or_else (step q) (of_Z 1)) = true) /\
  (forall q : Props, truthy (pow10 (Z.to_nat (stepDecimals q))) = true) /\
  (forall (q : Props) (x : maybe_number),
      strict_eq (min q) (max q) = true -> sliderValPercent_of q x = of_Z 0).
Proof.
  assert (Heff : or_else (step p) (of_Z 1) = or_else (of_Z 1) (of_Z 1))
    by (unfold or_else; now rewrite Hstep).
  repeat split.
  - unfold snappedValue_of, roundToStepPrecision, stepDecimals, with_step.
    cbn [min max step]. now rewrite Heff.
  - unfold stepDecimals, with_step. cbn [step]. now rewrite Heff.
  - intros q. apply effective_step_truthy.
  - intros q. apply pow10_truthy.
  - intros q x. apply sliderValPercent_zero_span.
Qed.

Lemma falsy_step_is_step_one_witness :
  truthy (step (config (of_Z 5) (of_Z 5) (of_Z 0))) = false /\
  snappedValue_of (config (of_Z 5) (of_Z 5) (of_Z 0)) (Num (lit 7.3%float))
    = snappedValue_of (with_step (config (of_Z 5) (of_Z 5) (of_Z 0)) (of_Z 1))
        (Num (lit 7.3%float)).
Proof.
  split; [vm_compute; reflexivity|].
  apply (falsy_step_is_step_one (config (of_Z 5) (of_Z 5) (of_Z 0))
           (Num (lit 7.3%float))).
  vm_compute; reflexivity.
Defined.

(** ** The scenarios of the description *)

(** C7. On the range 0..10 with step 1 the raw positions 3.6, -5 and 100
    are quantized to 4, 0 and 10; on the range 0..1 with step 0.25 the raw
    positions 0.9, 0.1 and 0.4 are quantized to 1, 0 and 0.5. *)
Theorem quantize_scenarios :
  quantize (config (of_Z 0) (of_Z 10) (of_Z 1)) (lit 3.6%float) = of_Z 4 /\
  quantize (config (of_Z 0) (of_Z 10) (of_Z 1)) (lit (-5)%float) = of_Z 0 /\
  quantize (config (of_Z 0) (of_Z 10) (of_Z 1)) (lit 100%float) = of_Z 10 /\
  quantize (config (of_Z 0) (of_Z 1) (lit 0.25%float)) (lit 0.9%float) = of_Z 1 /\
  quantize (config (of_Z 0) (of_Z 1) (lit 0.25%float)) (lit 0.1%float) = of_Z 0 /\
  quantize (config (of_Z 0) (of_Z 1) (lit 0.25%float)) (lit 0.4%float)
    = lit 0.5%float.
Proof. vm_compute. repeat split. Qed.

(** ** Ties *)

(** C10, as stated, fails, and not only where the last rounding leaves the
    lattice: the quotient is computed in floating point.  On the range
    -0.1..5.9 with step 0.3 the raw position 4.55 is exactly midway between
    the lattice points [min + 15 * step] and [min + 16 * step], both in the
    range, yet the quotient computed is 15.499999999999998, and the
    quantized value is 4.4, the smaller neighbour. *)
Lemma tie_lost_in_the_division :
  let p := config (lit (-0.1)%float) (lit 5.9%float) (lit 0.3%float) in
  let x := lit 4.55%float in
  clampedRaw_of p (Num x) = x /\
  (exists lo hi xq a b : Q,
      lattice_point p 15 = Some lo /\ lattice_point p 16 = Some hi /\
      to_Q x = Some xq /\ to_Q (min p) = Some a /\ to_Q (max p) = Some b /\
      (xq + xq == lo + hi)%Q /\ (a <= lo)%Q /\ (hi <= b)%Q) /\
  String_ (quotient_of p (Num x)) = "15.499999999999998"%string /\
  quantize p x = lit 4.4%float /\
  lt (quantize p x) x = true.
Proof.
  cbv zeta. split; [vm_compute; reflexivity|].
  split.
  - do 5 eexists.
    do 5 (split; [vm_compute; reflexivity|]).
    split; [unfold Qeq; vm_compute; reflexivity|].
    split; unfold Qle; vm_compute; discriminate.
  - vm_compute. repeat split.
Qed.

(** C10, amended. Whenever the quotient [(clampedRaw - min) / step] that the
    script computes is exactly [k + 1/2], for an integer [k >= 0],
    [stepsFromMin] is [k + 1]: [Math.round] takes the half step towards
    +Infinity.  The quantized value is then [min + (k + 1) * step], clamped
    again and rounded to the decimals of the step. *)
Theorem tie_quotient_snaps_upwards
    (p : Props) (raw : maybe_number) (q : Q) (k : Z)
    (Hk : 0 <= k)
    (Hquot : to_Q (quotient_of p raw) = Some q)
    (Hhalf : (q == inject_Z k + (1 # 2))%Q) :
  stepsFromMin_of p raw = of_Z (k + 1) /\
  snappedValue_of p raw
  = roundToStepPrecision p
      (Math_min (max p)
         (Math_max (min p)
            (add (min p) (mul (of_Z (k + 1)) (effective_step p))))).
Proof.
  destruct (to_Q_half _ _ _ Hk Hquot Hhalf) as (m & e & Hx & Hm).
  assert (Hsteps : stepsFromMin_of p raw = of_Z (k + 1)).
  { unfold stepsFromMin_of. rewrite Hx.
    now rewrite (Math_round_tie false m e k Hk Hm). }
  split; [exact Hsteps|].
  now rewrite snappedValue_of_steps, Hsteps.
Qed.

(** An instance for C10: the raw position 2.5 on the range 0..10 with
    step 1. *)
Lemma tie_quotient_snaps_upwards_witness :
  (exists q : Q,
      to_Q (quotient_of (config (of_Z 0) (of_Z 10) (of_Z 1)) (Num (lit 2.5%float)))
        = Some q /\
      (q == inject_Z 2 + (1 # 2))%Q) /\
  stepsFromMin_of (config (of_Z 0) (of_Z 10) (of_Z 1)) (Num (lit 2.5%float))
    = of_Z (2 + 1).
Proof.
  assert (Hq : to_Q (quotient_of (config (of_Z 0) (of_Z 10) (of_Z 1))
                       (Num (lit 2.5%float)))
               = Some (5629499534213120 # 2251799813685248)%Q)
    by (vm_compute; reflexivity).
  assert (Hh : (5629499534213120 # 2251799813685248 == inject_Z 2 + (1 # 2))%Q)
    by (unfold Qeq; vm_compute; reflexivity).
  split; [eexists; split; [exact Hq|exact Hh]|].
  apply (tie_quotient_snaps_upwards
           (config (of_Z 0) (of_Z 10) (of_Z 1)) (Num (lit 2.5%float))
           (5629499534213120 # 2251799813685248)%Q 2);
    [lia|exact Hq|exact Hh].
Defined.

(** ** Rounding after the last clamp

    [snappedValue] rounds to the decimals of [step] after it has clamped
    for the last time.  When [min] or [max] has more decimals than [step],
    that rounding moves the clamped value: off the lattice of steps, and
    possibly out of the range.  The evaluations below are instances of this
    one behaviour. *)

(** What [snappedValue] hands to the last rounding is NaN or lies in the
    range, whenever [min <= max]. *)
Lemma snappedValue_of_before_rounding (p : Props) (raw : maybe_number) :
  le (min p) (max p) = true ->
  exists c : number,
    snappedValue_of p raw = roundToStepPrecision p c /\
    (c = NaN \/ (le (min p) c = true /\ le c (max p) = true)).
Proof.
  intros Hle. unfold snappedValue_of.
  eexists. split; [reflexivity|]. now apply clamp_in_range.
Qed.

(** C2 at a failing input. On the range 0.25..10 with step 1 the raw
    position 0 is quantized to 0, which is below [min]; on the range
    0.5..10.5 with step 1 the raw position 11 is quantized to 11, which is
    above [max]. *)
Theorem quantize_leaves_the_range :
  quantize (config (lit 0.25%float) (of_Z 10) (of_Z 1)) (of_Z 0) = of_Z 0 /\
  lt (of_Z 0) (lit 0.25%float) = true /\
  quantize (config (lit 0.5%float) (lit 10.5%float) (of_Z 1)) (of_Z 11) = of_Z 11 /\
  lt (lit 10.5%float) (of_Z 11) = true.
Proof. vm_compute. repeat split. Qed.

(** C3 at a failing input. On the range 0.5..10.5 with step 1 the raw
    position 0.5 is quantized to 1, and 1 is quantized to 2: quantizing
    twice is not quantizing once. *)
Theorem quantize_is_not_idempotent :
  quantize (config (lit 0.5%float) (lit 10.5%float) (of_Z 1)) (lit 0.5%float)
    = of_Z 1 /\
  quantize (config (lit 0.5%float) (lit 10.5%float) (of_Z 1))
    (quantize (config (lit 0.5%float) (lit 10.5%float) (of_Z 1)) (lit 0.5%float))
    = of_Z 2 /\
  strict_eq (of_Z 2) (of_Z 1) = false.
Proof. vm_compute. repeat split. Qed.

(** C8 at a failing input. On the range of no width 5.5..5.5 with step 1
    every raw position tried is quantized to 6, not to [min]; the position
    fraction is 0 as claimed. *)
Theorem quantize_zero_width_is_not_min :
  map (quantize (config (lit 5.5%float) (lit 5.5%float) (of_Z 1)))
      [of_Z 0; lit 5.5%float; of_Z 100]
    = [of_Z 6; of_Z 6; of_Z 6] /\
  strict_eq (of_Z 6) (lit 5.5%float) = false /\
  map (positionFraction (config (lit 5.5%float) (lit 5.5%float) (of_Z 1)))
      [of_Z 0; lit 5.5%float; of_Z 100]
    = [of_Z 0; of_Z 0; of_Z 0].
Proof. vm_compute. repeat split. Qed.

(** A tie on such a range. On the range 0.5..10.5 with step 1 the raw
    position 1 lies midway between the lattice points 0.5 and 1.5, both in
    the range; [stepsFromMin] is 1, and the quantized value is 1.5 rounded
    to no decimals, which is 2. *)
Lemma quantize_tie_off_the_lattice :
  add (lit 0.5%float) (mul (of_Z 0) (of_Z 1)) = lit 0.5%float /\
  add (lit 0.5%float) (mul (of_Z 1) (of_Z 1)) = lit 1.5%float /\
  sub (of_Z 1) (lit 0.5%float) = sub (lit 1.5%float) (of_Z 1) /\
  quantize (config (lit 0.5%float) (lit 10.5%float) (of_Z 1)) (of_Z 1) = of_Z 2 /\
  strict_eq (of_Z 2) (lit 1.5%float) = false.
Proof. vm_compute. repeat split. Qed.

(** ** Steps of a tenth: no binary noise in the result *)

(** The decimals of some steps, read off their decimal text; a step in
    exponent notation has no point in its text, or digits and an exponent
    after it. *)
Example stepDecimals_of_steps :
  map (fun st => stepDecimals (config (of_Z 0) (of_Z 100) st))
      (map lit [1; 0.1; 0.25; 0.001; 2.5; -0.5; 0; 1e-7; 1.5e-7]%float)
  = [0; 1; 2; 3; 1; 1; 0; 0; 4].
Proof. vm_compute. reflexivity. Qed.

(** Rounding a mantissa of 54 bits at exponent -49: one bit is shifted
    out, and the 53 bits left are rounded to nearest. *)
Lemma shr_fexp_54 (q : Z) (l : location) :
  2 ^ 53 <= q < 2 ^ 54 ->
  shr_fexp prec emax q (-49) l = (shr_1 (shr_record_of_loc q l), -48).
Proof.
  intros H. destruct q as [|qp|qp]; try lia.
  unfold shr_fexp. cbn [Zdigits2].
  rewrite (digits2_pos_unique qp 54) by (lia || exact H).
  reflexivity.
Qed.

Lemma shr_1_round_nearest_even (q : Z) (l : location) :
  0 < q ->
  q / 2
  <= round_nearest_even (shr_m (shr_1 (shr_record_of_loc q l)))
       (loc_of_shr_record (shr_1 (shr_record_of_loc q l)))
  <= q / 2 + 1.
Proof.
  intros Hq.
  assert (Hm : shr_m (shr_1 (shr_record_of_loc q l)) = Z.div2 q).
  { destruct q as [|[qp|qp|]|]; try lia; destruct l as [|[]]; reflexivity. }
  rewrite Hm, Z.div2_div.
  destruct (loc_of_shr_record _) as [|[]]; cbn [round_nearest_even];
    try destruct (Z.even _); lia.
Qed.

(** A mantissa of 53 bits at exponent -48 is a double as it is. *)
Lemma shr_fexp_53 (r : Z) (sx : bool) :
  2 ^ 52 <= r < 2 ^ 53 ->
  (let '(mrs, e) := shr_fexp prec emax r (-48) loc_Exact in
   match shr_m mrs with
   | Z0 => S754_zero sx
   | Zpos m =>
       if Z.leb e (emax - prec) then S754_finite sx m e else S754_infinity sx
   | Zneg _ => S754_nan
   end) = S754_finite sx (Z.to_pos r) (-48).
Proof.
  intros H. destruct r as [|rp|rp]; try lia.
  unfold shr_fexp. cbn [Zdigits2].
  rewrite (digits2_pos_unique rp 53) by (lia || exact H).
  reflexivity.
Qed.

Lemma binary_round_aux_54 (q : Z) (l : location) :
  2 ^ 53 <= q < 2 ^ 54 - 2 ->
  exists r : positive,
    binary_round_aux prec emax false q (-49) l = S754_finite false r (-48) /\
    q / 2 <= Zpos r <= q / 2 + 1.
Proof.
  intros H. unfold binary_round_aux.
  rewrite shr_fexp_54 by lia.
  pose proof (shr_1_round_nearest_even q l ltac:(lia)) as Hr.
  set (r := round_nearest_even _ _) in *.
  assert (Hq : 2 ^ 52 <= q / 2 < 2 ^ 53 - 1).
  { split; [apply Z.div_le_lower_bound|apply Z.div_lt_upper_bound]; lia. }
  rewrite (shr_fexp_53 r false) by lia.
  exists (Z.to_pos r). split; [reflexivity|].
  rewrite Z2Pos.id by lia. exact Hr.
Qed.

Lemma lit_tenth : lit 0.1%float = S754_finite false (Z.to_pos tenth_m) (-56).
Proof. vm_compute. reflexivity. Qed.

(** The quotient of a double in [1, 2) by the step 0.1, before rounding. *)
Lemma div_core_tenth (m : positive) :
  2 ^ 52 <= Zpos m < 2 ^ 53 ->
  SFdiv_core_binary prec emax (Zpos m) (-52) tenth_m (-56)
  = ((Zpos m * 2 ^ 53) / tenth_m, -49,
     new_location tenth_m ((Zpos m * 2 ^ 53) mod tenth_m)).
Proof.
  intros H.
  cbv beta iota zeta delta [SFdiv_core_binary Zdigits2 tenth_m].
  rewrite (digits2_pos_unique m 53) by lia.
  change (digits2_pos 7205759403792794) with 53%positive.
  change (Z.min (fexp prec emax (53 + -52 - (53 + -56))) (-52 - -56)) with (-49).
  change (-52 - -56 - -49) with 53.
  cbv iota.
  rewrite Z.shiftl_mul_pow2 by lia.
  unfold Z.div, Z.modulo.
  now destruct (Z.div_eucl (Z.pos m * 2 ^ 53) 7205759403792794).
Qed.

(** Every double from 1.66 to 1.74 is 17 steps of 0.1 from 0. *)
Lemma round_div_tenth (m : positive) :
  7475975381435023 <= Zpos m <= 7836263351624663 ->
  Math_round (div (S754_finite false m (-52)) (lit 0.1%float)) = of_Z 17.
Proof.
  intros H. rewrite lit_tenth. unfold div, SFdiv.
  change (Z.pos (Z.to_pos tenth_m)) with tenth_m.
  rewrite div_core_tenth by lia.
  cbv beta iota. change (xorb false false) with false.
  set (q := Z.pos m * 2 ^ 53 / tenth_m).
  assert (Hq : 9344969226793778 <= q < 9795329189530829).
  { subst q. unfold tenth_m. split.
    - apply Z.div_le_lower_bound; lia.
    - apply Z.div_lt_upper_bound; lia. }
  destruct (binary_round_aux_54 q
              (new_location tenth_m ((Z.pos m * 2 ^ 53) mod tenth_m)))
    as (r & -> & Hr); [lia|].
  assert (Hq2 : 4672484613396889 <= q / 2 < 4897664594765415).
  { split; [apply Z.div_le_lower_bound|apply Z.div_lt_upper_bound]; lia. }
  unfold Math_round.
  change (Pos.iter xO 1%positive 48) with (281474976710656)%positive.
  replace ((2 * Z.pos r + 281474976710656) / (2 * 281474976710656)) with 17.
  - reflexivity.
  - apply Z.div_unique
      with (r := 2 * Z.pos r + 281474976710656 - 17 * (2 * 281474976710656));
      lia.
Qed.

(** The doubles from 1.66 to 1.74, by their mantissa. *)
Lemma between_1_66_and_1_74 (x : number) :
  le (lit 1.66%float) x = true -> le x (lit 1.74%float) = true ->
  exists m : positive,
    x = S754_finite false m (-52) /\
    7475975381435023 <= Zpos m <= 7836263351624663.
Proof.
  replace (lit 1.66%float) with (S754_finite false 7475975381435023 (-52))
    by (vm_compute; reflexivity).
  replace (lit 1.74%float) with (S754_finite false 7836263351624663 (-52))
    by (vm_compute; reflexivity).
  unfold le, SFleb.
  destruct x as [s|s| |s m e]; try discriminate.
  - destruct s; discriminate.
  - cbn [SFcompare]. destruct s; try discriminate.
    destruct (Z.compare_spec (-52) e) as [He|He|He]; try discriminate.
    + subst e. cbn [Z.compare Pos.compare].
      change (CompOpp (52 ?= 52)%positive) with Eq. cbv iota.
      intros Hlo Hhi. exists m. split; [reflexivity|].
      split.
      * apply Pos2Z.pos_le_pos. unfold Pos.le, Pos.compare.
        intros E. rewrite E in Hlo. discriminate.
      * apply Pos2Z.pos_le_pos. unfold Pos.le, Pos.compare.
        intros E. rewrite E in Hhi. discriminate.
    + cbn [Z.compare]. intros _.
      destruct (Z.compare_spec e (-52)) as [He'|He'|He'];
        [exfalso; lia|exfalso; lia|discriminate].
Qed.

Lemma quantize_tenths_between (x : number) :
  le (lit 1.66%float) x = true -> le x (lit 1.74%float) = true ->
  quantize tenths x = lit 1.7%float.
Proof.
  intros Hlo Hhi.
  destruct (between_1_66_and_1_74 x Hlo Hhi) as (m & -> & Hm).
  unfold quantize, snappedValue_of. cbv zeta. cbn [nullish_or].
  replace (or_else (step tenths) (of_Z 1)) with (lit 0.1%float)
    by (vm_compute; reflexivity).
  replace (Math_min (max tenths) (Math_max (min tenths) (S754_finite false m (-52))))
    with (S754_finite false m (-52)) by reflexivity.
  replace (sub (S754_finite false m (-52)) (min tenths))
    with (S754_finite false m (-52)) by reflexivity.
  rewrite round_div_tenth by exact Hm.
  vm_compute. reflexivity.
Qed.

(** Quantizing 1.7 again gives 1.7, however often. *)
Lemma quantize_tenths_iter (n : nat) :
  Nat.iter n (quantize tenths) (lit 1.7%float) = lit 1.7%float.
Proof.
  induction n as [|n IH]; [reflexivity|].
  change (Nat.iter (S n) (quantize tenths) (lit 1.7%float))
    with (quantize tenths (Nat.iter n (quantize tenths) (lit 1.7%float))).
  rewrite IH. vm_compute. reflexivity.
Qed.

(** C9. With step 0.1 on the range 0..100 the step has one decimal, so the
    last rounding multiplies by 10, rounds to the nearest integer and
    divides by 10.  Every double [x] from 1.66 to 1.74 is quantized to the
    double that the literal 1.7 denotes, written "1.7", and quantizing the
    result again any number of times leaves it there.  The value before the
    last rounding, 17 steps of 0.1 from 0, is the double written
    "1.7000000000000002", which is a different number. *)
Theorem quantize_tenths_near_1_7
    (x : number)
    (Hlo : le (lit 1.66%float) x = true)
    (Hhi : le x (lit 1.74%float) = true) :
  stepDecimals tenths = 1 /\
  (forall v : number,
      roundToStepPrecision tenths v
      = div (Math_round (mul v (of_Z 10))) (of_Z 10)) /\
  quantize tenths x = lit 1.7%float /\
  String_ (quantize tenths x) = "1.7" /\
  (forall n : nat,
      Nat.iter n (quantize tenths) (quantize tenths x) = lit 1.7%float) /\
  add (of_Z 0) (mul (of_Z 17) (lit 0.1%float)) = lit 1.7000000000000002%float /\
  String_ (add (of_Z 0) (mul (of_Z 17) (lit 0.1%float))) = "1.7000000000000002" /\
  strict_eq (lit 1.7000000000000002%float) (lit 1.7%float) = false.
Proof.
  pose proof (quantize_tenths_between x Hlo Hhi) as Hq.
  split; [vm_compute; reflexivity|].
  split.
  { intros v. unfold roundToStepPrecision.
    replace (stepDecimals tenths) with 1 by (vm_compute; reflexivity).
    reflexivity. }
  rewrite Hq.
  split; [reflexivity|].
  split; [vm_compute; reflexivity|].
  split; [apply quantize_tenths_iter|].
  vm_compute. repeat split.
Qed.

(** An instance for C9: the raw position 1.7000000000000002 itself. *)
Lemma quantize_tenths_near_1_7_witness :
  le (lit 1.66%float) (lit 1.7000000000000002%float) = true /\
  le (lit 1.7000000000000002%float) (lit 1.74%float) = true /\
  quantize tenths (lit 1.7000000000000002%float) = lit 1.7%float.
Proof.
  split; [vm_compute; reflexivity|].
  split; [vm_compute; reflexivity|].
  apply (quantize_tenths_near_1_7 (lit 1.7000000000000002%float));
    vm_compute; reflexivity.
Defined.

(** * More of the slider: the instance over time

    An instance is followed from set-up through any sequence of events:
    texts arriving from the range input and from the number input, and
    new values of [modelValue] arriving from the parent. *)

(** [Object.is] is symmetric. *)
Lemma same_value_sym (x y : number) : same_value x y = same_value y x.
Proof.
  destruct (same_value x y) eqn:E.
  - apply same_value_eq in E. subst. symmetry. apply same_value_refl.
  - destruct (same_value y x) eqn:E'; [|reflexivity].
    apply same_value_eq in E'. subst. rewrite same_value_refl in E. discriminate.
Qed.

Lemma same_maybe_refl (x : maybe_number) : same_maybe x x = true.
Proof. destruct x; simpl; auto using same_value_refl. Qed.

(** The last element of a list that is not empty does not depend on the
    default. *)
Lemma last_default (x : number) (l : list number) (d d' : number) :
  last (x :: l) d = last (x :: l) d'.
Proof.
  revert x. induction l as [|y l IH]; intros x; [reflexivity|].
  change (last (x :: y :: l) d) with (last (y :: l) d).
  change (last (x :: y :: l) d') with (last (y :: l) d').
  apply IH.
Qed.

Lemma last_cons_default (x : number) (l : list number) (d : number) :
  last (x :: l) d = last l x.
Proof.
  destruct l as [|y l]; [reflexivity|].
  change (last (x :: y :: l) d) with (last (y :: l) d).
  apply last_default.
Qed.

Lemma changes_snoc (prev : number) (l : list number) (x : number) :
  changes prev (l ++ [x])%list
  = changes prev l && negb (same_value (last l prev) x).
Proof.
  revert prev. induction l as [|y l IH]; intros prev.
  - simpl. rewrite andb_true_r. reflexivity.
  - change ((y :: l) ++ [x])%list with (y :: (l ++ [x]))%list.
    cbn [changes]. rewrite IH, andb_assoc, last_cons_default. reflexivity.
Qed.

(** The log of emissions stays well formed through the watcher, the
    assignment to the ref and every handler. *)

Lemma run_watch_snappedValue_log (init : number) (st : State) :
  log_ok init st -> log_ok init (run_watch_snappedValue st).
Proof.
  intros [Hc Hl]. unfold run_watch_snappedValue.
  destruct (same_value (snappedValue st) (seen st)) eqn:E; [split; assumption|].
  split; cbn [emitted seen].
  - rewrite changes_snoc, Hc, Hl, same_value_sym, E. reflexivity.
  - apply last_last.
Qed.

Lemma set_rawSliderValue_log (init x : number) (st : State) :
  log_ok init st -> log_ok init (set_rawSliderValue x st).
Proof.
  intros H. unfold set_rawSliderValue.
  destruct (same_maybe (Num x) (rawSliderValue st)); [assumption|].
  apply run_watch_snappedValue_log. exact H.
Qed.

Lemma watch_modelValue_log (init : number) (value : maybe_number) (st : State) :
  log_ok init st -> log_ok init (watch_modelValue value st).
Proof.
  intros H. unfold watch_modelValue.
  destruct (strict_neq _ _); [apply set_rawSliderValue_log|]; exact H.
Qed.

Lemma handle_log (init : number) (st : State) (ev : Event) :
  log_ok init st -> log_ok init (handle st ev).
Proof.
  intros H. destruct ev as [text|text|given]; cbn [handle].
  - apply set_rawSliderValue_log, H.
  - unfold onNumberInput. destruct (isFinite _); [apply set_rawSliderValue_log|]; exact H.
  - unfold update_modelValue. destruct (same_maybe _ _); [exact H|].
    apply watch_modelValue_log. exact H.
Qed.

Lemma handle_settled (st : State) (ev : Event) :
  settled st -> settled (handle st ev).
Proof.
  intros H. destruct ev; cbn [handle];
    auto using onRangeInput_settled, onNumberInput_settled, update_modelValue_settled.
Qed.

Lemma run_invariant (init : number) (st : State) (evs : list Event) :
  settled st -> log_ok init st ->
  settled (run st evs) /\ log_ok init (run st evs).
Proof.
  revert st. induction evs as [|ev evs IH]; intros st Hs Hl; [split; assumption|].
  cbn [run fold_left]. apply IH; [apply handle_settled | apply handle_log]; assumption.
Qed.

Lemma setup_log (a : Attrs) : log_ok (snappedValue (setup a)) (setup a).
Proof. split; reflexivity. Qed.

(** X1. After set-up and any sequence of events the watcher of
    [snappedValue] has seen the current value, and the value emitted last
    is the current [snappedValue]; as long as nothing has been emitted,
    [snappedValue] is still the one of set-up.  So what the parent was told
    last is what the component shows. *)
Theorem last_emitted_is_snappedValue (a : Attrs) (evs : list Event) :
  settled (run (setup a) evs) /\
  last (emitted (run (setup a) evs)) (snappedValue (setup a))
    = snappedValue (run (setup a) evs).
Proof.
  destruct (run_invariant (snappedValue (setup a)) (setup a) evs
              (setup_settled a) (setup_log a)) as [Hs [_ Hl]].
  split; [exact Hs|]. rewrite Hl. exact Hs.
Qed.

(** X2. Over any sequence of events, no [update:modelValue] carries the
    value ([Object.is]) of the emission before it, and the first one
    differs from the [snappedValue] of set-up: the parent is only told of
    changes. *)
Theorem emissions_never_repeat (a : Attrs) (evs : list Event) :
  changes (snappedValue (setup a)) (emitted (run (setup a) evs)) = true.
Proof.
  apply (run_invariant (snappedValue (setup a)) (setup a) evs
           (setup_settled a) (setup_log a)).
Qed.

(** The handlers leave the props alone. *)

Lemma props_run_watch (st : State) : props (run_watch_snappedValue st) = props st.
Proof. unfold run_watch_snappedValue. destruct (same_value _ _); reflexivity. Qed.

Lemma props_set_raw (x : number) (st : State) :
  props (set_rawSliderValue x st) = props st.
Proof.
  unfold set_rawSliderValue. destruct (same_maybe _ _); [reflexivity|].
  rewrite props_run_watch. reflexivity.
Qed.

Lemma props_watch_modelValue (v : maybe_number) (st : State) :
  props (watch_modelValue v st) = props st.
Proof.
  unfold watch_modelValue. destruct (strict_neq _ _); [apply props_set_raw|reflexivity].
Qed.

Lemma set_rawSliderValue_twice (x : number) (st : State) :
  set_rawSliderValue x (set_rawSliderValue x st) = set_rawSliderValue x st.
Proof.
  unfold set_rawSliderValue at 1. rewrite rawSliderValue_set.
  cbn [same_maybe]. rewrite same_value_refl. reflexivity.
Qed.

(** X3. An event that arrives twice in a row does nothing the second time:
    the instance after the second is the instance after the first, so
    nothing more is emitted. *)
Theorem handle_twice (st : State) (ev : Event) :
  handle (handle st ev) ev = handle st ev.
Proof.
  destruct ev as [text|text|given]; cbn [handle].
  - apply set_rawSliderValue_twice.
  - unfold onNumberInput. destruct (isFinite (Number text));
      [apply set_rawSliderValue_twice | reflexivity].
  - unfold update_modelValue at 1.
    unfold update_modelValue.
    destruct (same_maybe (modelValue_with_default given default_modelValue)
                (modelValue (props st))) eqn:E.
    + rewrite E. reflexivity.
    + rewrite props_watch_modelValue. cbn [props modelValue].
      rewrite same_maybe_refl. reflexivity.
Qed.

Lemma emitted_run_watch (st : State) :
  emitted (run_watch_snappedValue st) = emitted st \/
  emitted (run_watch_snappedValue st)
    = (emitted st ++ [snappedValue (run_watch_snappedValue st)])%list.
Proof.
  unfold run_watch_snappedValue. destruct (same_value _ _); [left; reflexivity|].
  right. reflexivity.
Qed.

Lemma emitted_set_raw (x : number) (st : State) :
  emitted (set_rawSliderValue x st) = emitted st \/
  emitted (set_rawSliderValue x st)
    = (emitted st ++ [snappedValue (set_rawSliderValue x st)])%list.
Proof.
  unfold set_rawSliderValue. destruct (same_maybe _ _); [left; reflexivity|].
  apply (emitted_run_watch
           {| props := props st; rawSliderValue := Num x;
              seen := seen st; emitted := emitted st |}).
Qed.

(** X4. One event makes at most one emission, and what it emits is the
    [snappedValue] the instance has afterwards. *)
Theorem handle_emits_at_most_once (st : State) (ev : Event) :
  emitted (handle st ev) = emitted st \/
  emitted (handle st ev) = (emitted st ++ [snappedValue (handle st ev)])%list.
Proof.
  destruct ev as [text|text|given]; cbn [handle].
  - apply emitted_set_raw.
  - unfold onNumberInput. destruct (isFinite _); [apply emitted_set_raw|left; reflexivity].
  - unfold update_modelValue. destruct (same_maybe _ _); [left; reflexivity|].
    unfold watch_modelValue. destruct (strict_neq _ _); [|left; reflexivity].
    match goal with |- context [set_rawSliderValue ?x ?s] =>
      apply (emitted_set_raw x s) end.
Qed.

(** An assignment to the ref, for an instance between two events: the
    quantized value of the number assigned becomes [snappedValue], and is
    emitted exactly when it differs from the one before. *)
Lemma set_rawSliderValue_emits (x : number) (st : State) :
  settled st ->
  snappedValue (set_rawSliderValue x st) = quantize (props st) x /\
  emitted (set_rawSliderValue x st)
    = if same_value (quantize (props st) x) (snappedValue st)
      then emitted st
      else (emitted st ++ [quantize (props st) x])%list.
Proof.
  intros Hsettled.
  assert (Hraw : rawSliderValue (set_rawSliderValue x st) = Num x)
    by apply rawSliderValue_set.
  assert (Hprops : props (set_rawSliderValue x st) = props st)
    by apply props_set_raw.
  split; [unfold snappedValue, quantize; rewrite Hraw, Hprops; reflexivity|].
  unfold set_rawSliderValue.
  destruct (same_maybe (Num x) (rawSliderValue st)) eqn:E.
  - assert (Hsame : rawSliderValue st = Num x).
    { destruct (rawSliderValue st) as [| |r]; try discriminate E.
      cbn in E. apply same_value_eq in E. congruence. }
    unfold quantize, snappedValue. rewrite Hsame, same_value_refl. reflexivity.
  - unfold run_watch_snappedValue, snappedValue at 1 2.
    cbn [props rawSliderValue seen emitted]. fold (quantize (props st) x).
    rewrite Hsettled.
    destruct (same_value (quantize (props st) x) (snappedValue st));
      reflexivity.
Qed.

(** X5. What the range input does to an instance between two events: the
    ref takes the number read from the text, [snappedValue] becomes its
    quantized value, and that value is emitted exactly when it differs
    ([Object.is]) from the [snappedValue] before; moving the thumb within a
    step emits nothing. *)
Theorem onRangeInput_emits_on_change (st : State) (text : string)
    (Hsettled : settled st) :
  rawSliderValue (onRangeInput text st) = Num (Number text) /\
  snappedValue (onRangeInput text st) = quantize (props st) (Number text) /\
  emitted (onRangeInput text st)
    = if same_value (quantize (props st) (Number text)) (snappedValue st)
      then emitted st
      else (emitted st ++ [quantize (props st) (Number text)])%list.
Proof.
  split; [apply rawSliderValue_set|].
  apply set_rawSliderValue_emits, Hsettled.
Qed.

(** An instance for X5: from 2.9 to 3.2 the value stays 3, from 2.9 to 3.6
    it becomes 4. *)
Lemma onRangeInput_emits_on_change_witness :
  emitted (onRangeInput "3.2" (onRangeInput "2.9" (setup no_attrs))) = [of_Z 3] /\
  emitted (onRangeInput "3.6" (onRangeInput "2.9" (setup no_attrs)))
    = [of_Z 3; of_Z 4].
Proof.
  pose proof (onRangeInput_settled "2.9" _ (setup_settled no_attrs)) as Hs.
  split.
  - destruct (onRangeInput_emits_on_change _ "3.2" Hs) as (_ & _ & ->).
    vm_compute. reflexivity.
  - destruct (onRangeInput_emits_on_change _ "3.6" Hs) as (_ & _ & ->).
    vm_compute. reflexivity.
Defined.

(** X6. A new [modelValue] that differs ([!==]) from [snappedValue] is
    taken as the raw position of an instance between two events: the ref
    holds it, [snappedValue] becomes its quantized value, and that value
    is emitted exactly when it differs ([Object.is]) from the
    [snappedValue] before.  So the parent is answered with the quantized
    value, unless the component had that value already: then nothing is
    emitted, and the parent keeps a value that the component does not
    show. *)
Theorem upstream_value_is_taken_as_raw (st : State) (v : number)
    (Hsettled : settled st)
    (Hnew : same_maybe (Num v) (modelValue (props st)) = false)
    (Hdiffers : strict_neq v (snappedValue st) = true) :
  modelValue (props (update_modelValue (Num v) st)) = Num v /\
  rawSliderValue (update_modelValue (Num v) st) = Num v /\
  snappedValue (update_modelValue (Num v) st) = quantize (props st) v /\
  emitted (update_modelValue (Num v) st)
    = if same_value (quantize (props st) v) (snappedValue st)
      then emitted st
      else (emitted st ++ [quantize (props st) v])%list.
Proof.
  unfold update_modelValue. cbn [modelValue_with_default]. rewrite Hnew.
  set (st0 := {| props := {| min := min (props st); max := max (props st);
                             step := step (props st); modelValue := Num v;
                             showInput := showInput (props st) |};
                 rawSliderValue := rawSliderValue st;
                 seen := seen st; emitted := emitted st |}).
  assert (Hsnap0 : snappedValue st0 = snappedValue st) by reflexivity.
  assert (Hq : forall x, quantize (props st0) x = quantize (props st) x)
    by reflexivity.
  assert (Hs0 : settled st0) by exact Hsettled.
  unfold watch_modelValue. cbn [nullish_or]. rewrite Hsnap0, Hdiffers.
  destruct (set_rawSliderValue_emits v st0 Hs0) as [H1 H2].
  rewrite props_set_raw, rawSliderValue_set, H1, H2, Hq, Hsnap0.
  repeat split; reflexivity.
Qed.

(** An instance for X6: the slider with no prop given shows 1; the parent
    passes 1.3 and is told nothing. *)
Lemma upstream_value_is_taken_as_raw_witness :
  let st := update_modelValue (Num (lit 1.3%float)) (setup no_attrs) in
  modelValue (props st) = Num (lit 1.3%float) /\
  rawSliderValue st = Num (lit 1.3%float) /\
  snappedValue st = of_Z 1 /\
  emitted st = [].
Proof.
  cbv zeta.
  destruct (upstream_value_is_taken_as_raw (setup no_attrs) (lit 1.3%float)
              (setup_settled no_attrs) eq_refl eq_refl)
    as (Hprop & Hraw & Hsnapped & Hemitted).
  split; [exact Hprop|]. split; [exact Hraw|].
  split; [rewrite Hsnapped; vm_compute; reflexivity|].
  rewrite Hemitted. vm_compute. reflexivity.
Defined.

(** ** Texts that are no number, and numbers that are not finite *)

(** X7. A text of the range input that reads as NaN poisons the instance:
    the ref holds NaN, [snappedValue] is NaN, [sliderValPercent] is NaN
    unless the range is zero, and NaN is emitted to the parent when the
    value before was a number. *)
Theorem unparsable_range_text_is_NaN (st : State) (text : string)
    (Htext : Number text = NaN) :
  rawSliderValue (onRangeInput text st) = Num NaN /\
  snappedValue (onRangeInput text st) = NaN /\
  (truthy (sub (max (props st)) (min (props st))) = true ->
   sliderValPercent (onRangeInput text st) = NaN) /\
  (settled st -> snappedValue st <> NaN ->
   emitted (onRangeInput text st) = (emitted st ++ [NaN])%list).
Proof.
  assert (Hraw : rawSliderValue (onRangeInput text st) = Num NaN).
  { unfold onRangeInput. rewrite rawSliderValue_set, Htext. reflexivity. }
  assert (Hprops : props (onRangeInput text st) = props st)
    by apply props_set_raw.
  split; [exact Hraw|].
  split; [unfold snappedValue; rewrite Hraw; apply snappedValue_of_NaN|].
  split.
  - intros Hrange. unfold sliderValPercent, sliderValPercent_of.
    rewrite Hraw, Hprops, Hrange. cbn [negb nullish_or].
    assert (Hc : Math_min (max (props st)) (Math_max (min (props st)) NaN) = NaN).
    { destruct (min (props st)), (max (props st)); reflexivity. }
    rewrite Hc. reflexivity.
  - intros Hs Hn. unfold onRangeInput, set_rawSliderValue. rewrite Htext.
    destruct (same_maybe (Num NaN) (rawSliderValue st)) eqn:E.
    + exfalso. apply Hn. unfold snappedValue.
      destruct (rawSliderValue st) as [| |r]; try discriminate E.
      cbn in E. destruct r; try discriminate E. apply snappedValue_of_NaN.
    + unfold run_watch_snappedValue, snappedValue. cbn [props rawSliderValue seen emitted].
      rewrite snappedValue_of_NaN.
      destruct (same_value NaN (seen st)) eqn:E'; [|reflexivity].
      exfalso. apply Hn. rewrite <- Hs. destruct (seen st); try discriminate E'.
      reflexivity.
Qed.

(** An instance for X7: the text [1,5] on the slider with no prop given. *)
Lemma unparsable_range_text_is_NaN_witness :
  Number "1,5" = NaN /\
  snappedValue (onRangeInput "1,5" (setup no_attrs)) = NaN /\
  sliderValPercent (onRangeInput "1,5" (setup no_attrs)) = NaN /\
  emitted (onRangeInput "1,5" (setup no_attrs)) = [NaN].
Proof.
  split; [reflexivity|].
  destruct (unparsable_range_text_is_NaN (setup no_attrs) "1,5" eq_refl)
    as (_ & Hsnapped & Hpercent & Hemitted).
  split; [exact Hsnapped|].
  split; [apply Hpercent; reflexivity|].
  apply Hemitted; [reflexivity | vm_compute; discriminate].
Defined.

Lemma min_props_handle (st : State) (ev : Event) :
  min (props (handle st ev)) = min (props st).
Proof.
  destruct ev as [text|text|given]; cbn [handle].
  - unfold onRangeInput. rewrite props_set_raw. reflexivity.
  - unfold onNumberInput. destruct (isFinite _); [rewrite props_set_raw|]; reflexivity.
  - unfold update_modelValue. destruct (same_maybe _ _); [reflexivity|].
    rewrite props_watch_modelValue. reflexivity.
Qed.

Lemma raw_isFinite_set (x : number) (st : State) :
  isFinite x = true -> raw_isFinite (set_rawSliderValue x st) = true.
Proof. intros H. unfold raw_isFinite. rewrite rawSliderValue_set. exact H. Qed.

Lemma raw_isFinite_handle (st : State) (ev : Event) :
  finite_event (min (props st)) ev = true ->
  raw_isFinite st = true -> raw_isFinite (handle st ev) = true.
Proof.
  intros Hev Hst. destruct ev as [text|text|given]; cbn [handle finite_event] in *.
  - apply raw_isFinite_set, Hev.
  - unfold onNumberInput. destruct (isFinite (Number text)) eqn:E;
      [apply raw_isFinite_set, E | exact Hst].
  - unfold update_modelValue. destruct (same_maybe _ _); [exact Hst|].
    unfold watch_modelValue. destruct (strict_neq _ _); [|exact Hst].
    apply raw_isFinite_set. cbn [props min].
    destruct given as [| |v]; cbn; auto.
Qed.

(** X8. The ref stays finite as long as finite numbers arrive: through
    any text of the number input (which is ignored unless it reads as a
    finite number), through texts of the range input that read as finite
    numbers, and through finite values of [modelValue] ([null] standing
    for [min]). *)
Theorem finite_events_keep_rawSliderValue_finite
    (st : State) (evs : list Event)
    (Hevs : forallb (finite_event (min (props st))) evs = true)
    (Hst : raw_isFinite st = true) :
  raw_isFinite (run st evs) = true.
Proof.
  revert st Hevs Hst. induction evs as [|ev evs IH]; intros st Hevs Hst; [exact Hst|].
  cbn [forallb] in Hevs. apply andb_true_iff in Hevs as [Hev Hevs].
  cbn [run fold_left]. apply IH.
  - rewrite min_props_handle. exact Hevs.
  - apply raw_isFinite_handle; assumption.
Qed.

(** An instance for X8, with two texts that the number input ignores. *)
Lemma finite_events_keep_rawSliderValue_finite_witness :
  raw_isFinite
    (run (setup no_attrs)
       [NumberInput "abc"; NumberInput "12.5"; ModelValue Null;
        NumberInput "Infinity"; RangeInput "40"]) = true.
Proof.
  apply finite_events_keep_rawSliderValue_finite; reflexivity.
Defined.

(** *** Where NaN can come from

    No operation inside [snappedValue] makes a NaN out of numbers when the
    props are finite: no difference of infinities, no product of zero and
    infinity, no quotient of zeros or of infinities. *)

Lemma shr_fexp_nonneg (m e : Z) (l : location) :
  0 <= m -> 0 <= shr_m (fst (shr_fexp prec emax m e l)).
Proof.
  intros Hm. unfold shr_fexp, shr.
  destruct (fexp prec emax (Zdigits2 m + e) - e) as [|n|n]; cbn [fst].
  - rewrite shr_m_of_loc. exact Hm.
  - rewrite iter_pos_shr_1_m by (rewrite shr_m_of_loc; exact Hm).
    rewrite shr_m_of_loc. apply Z.div_pos; lia.
  - rewrite shr_m_of_loc. exact Hm.
Qed.

Lemma binary_round_aux_not_NaN (sx : bool) (m e : Z) (l : location) :
  0 <= m -> binary_round_aux prec emax sx m e l <> NaN.
Proof.
  intros Hm. unfold binary_round_aux.
  pose proof (shr_fexp_nonneg m e l Hm) as H1.
  destruct (shr_fexp prec emax m e l) as [mrs' e']. cbn [fst] in H1.
  pose proof (round_nearest_even_ge (shr_m mrs') (loc_of_shr_record mrs')) as Hr.
  set (r := round_nearest_even _ _) in *.
  pose proof (shr_fexp_nonneg r e' loc_Exact ltac:(lia)) as H2.
  destruct (shr_fexp prec emax r e' loc_Exact) as [mrs'' e'']. cbn [fst] in H2.
  destruct (shr_m mrs''); try lia; [discriminate|].
  destruct (e'' <=? emax - prec); discriminate.
Qed.

Lemma binary_normalize_not_NaN (m e : Z) (szero : bool) :
  binary_normalize prec emax m e szero <> NaN.
Proof.
  destruct m as [|p|p]; cbn [binary_normalize]; [discriminate| |];
    unfold binary_round;
    destruct (shl_align _ _ _) as [mz ez];
    apply binary_round_aux_not_NaN; lia.
Qed.

Lemma of_Z_not_NaN (n : Z) : of_Z n <> NaN.
Proof. apply binary_normalize_not_NaN. Qed.

Lemma sub_not_NaN (x y : number) :
  isFinite x = true -> isFinite y = true -> sub x y <> NaN.
Proof.
  destruct x as [sx|sx| |sx mx ex], y as [sy|sy| |sy my ey]; try discriminate;
    intros _ _; cbn [sub SFsub]; try discriminate;
    try (destruct sx, sy; discriminate);
    apply binary_normalize_not_NaN.
Qed.

Lemma add_not_NaN (x y : number) :
  isFinite x = true -> y <> NaN -> add x y <> NaN.
Proof.
  destruct x as [sx|sx| |sx mx ex], y as [sy|sy| |sy my ey]; try discriminate;
    intros _ Hy; try (now elim Hy); cbn [add SFadd]; try discriminate;
    try (destruct sx, sy; discriminate);
    apply binary_normalize_not_NaN.
Qed.

Lemma mul_not_NaN (x y : number) :
  x <> NaN -> isFinite y = true -> truthy y = true -> mul x y <> NaN.
Proof.
  destruct x as [sx|sx| |sx mx ex], y as [sy|sy| |sy my ey]; try discriminate;
    intros Hx _ _; try (now elim Hx); cbn [mul SFmul]; try discriminate.
  apply binary_round_aux_not_NaN. lia.
Qed.

Lemma div_not_NaN (x y : number) :
  x <> NaN -> isFinite y = true -> truthy y = true -> div x y <> NaN.
Proof.
  destruct x as [sx|sx| |sx mx ex], y as [sy|sy| |sy my ey]; try discriminate;
    intros Hx _ _; try (now elim Hx); cbn [div SFdiv]; try discriminate.
  unfold SFdiv_core_binary.
  set (m' := match _ - _ - _ with Z0 => Zpos mx | Zpos _ => _ | Zneg _ => 0 end).
  assert (Hm' : 0 <= m').
  { subst m'. destruct (_ - _ - _); try lia. apply Z.shiftl_nonneg. lia. }
  pose proof (Z.div_eucl_eq m' (Zpos my) ltac:(lia)) as He.
  pose proof (Z.mod_pos_bound m' (Zpos my) ltac:(lia)) as Hb.
  unfold Z.modulo in Hb. destruct (Z.div_eucl m' (Zpos my)) as [q r].
  apply binary_round_aux_not_NaN. nia.
Qed.

Lemma Math_round_not_NaN (x : number) : x <> NaN -> Math_round x <> NaN.
Proof.
  destruct x as [s|s| |s m [|e|e]]; intros Hx; cbn [Math_round]; try exact Hx.
  destruct (_ / _); [discriminate | apply of_Z_not_NaN | apply of_Z_not_NaN].
Qed.

Lemma Math_max_finite_lower (lo x : number) :
  isFinite lo = true -> x <> NaN ->
  Math_max lo x <> NaN /\ Math_max lo x <> S754_infinity true.
Proof.
  intros Hlo Hx.
  destruct lo as [sl|sl| |sl ml el], x as [sx|sx| |sx mx ex]; try discriminate;
    try (now elim Hx); cbn [Math_max]; try (split; discriminate);
    match goal with |- context [lt ?a ?b] => destruct (lt a b) eqn:E end;
    try (split; discriminate);
    destruct sx; try destruct sl; try discriminate E; split; discriminate.
Qed.

(** Clamping anything but NaN between finite bounds gives a finite number. *)
Lemma clamp_finite (lo hi x : number) :
  isFinite lo = true -> isFinite hi = true -> x <> NaN ->
  isFinite (Math_min hi (Math_max lo x)) = true.
Proof.
  intros Hlo Hhi Hx.
  destruct (Math_max_finite_lower lo x Hlo Hx) as [H1 H2].
  destruct hi as [sh|sh| |sh mh eh], (Math_max lo x) as [sy|sy| |sy my ey];
    try discriminate; try (now elim H1); cbn [Math_min]; try reflexivity;
    match goal with |- context [lt ?a ?b] => destruct (lt a b) eqn:E end;
    try reflexivity;
    destruct sy; try destruct sh; try discriminate E; try reflexivity;
    now elim H2.
Qed.

Lemma isFinite_not_NaN (x : number) : isFinite x = true -> x <> NaN.
Proof. destruct x; discriminate. Qed.

(** The powers of ten up to [10 ** 308] are finite. *)
Lemma pow10_finite (n : nat) : (n <= 308)%nat -> isFinite (pow10 n) = true.
Proof.
  intros Hn.
  assert (H : forallb (fun k => isFinite (pow10 k)) (seq 0 309) = true)
    by (vm_compute; reflexivity).
  rewrite forallb_forall in H. apply H. apply in_seq. lia.
Qed.

Lemma effective_step_finite (p : Props) :
  isFinite (step p) = true -> isFinite (effective_step p) = true.
Proof.
  unfold effective_step, or_else. destruct (truthy (step p)); auto.
Qed.

(** X9. With finite [min], [max] and [step] (and a step written with at
    most 308 decimals, so that the factor of the last rounding is finite),
    the quantized value is NaN exactly when the raw position is NaN: the
    infinities, too, are quantized to a number. *)
Theorem quantize_is_NaN_only_for_NaN (p : Props) (x : number)
    (Hmin : isFinite (min p) = true)
    (Hmax : isFinite (max p) = true)
    (Hstep : isFinite (step p) = true)
    (Hdecimals : stepDecimals p <= 308) :
  quantize p x = NaN <-> x = NaN.
Proof.
  split; [|intros ->; apply snappedValue_of_NaN].
  intros Hq. destruct x as [s|s| |s m e] eqn:Ex; [exfalso|exfalso|reflexivity|exfalso];
    rewrite <- Ex in *;
    (assert (Hx : x <> NaN) by (rewrite Ex; discriminate));
    clear Ex; revert Hq;
    unfold quantize; rewrite snappedValue_of_steps;
    unfold roundToStepPrecision, stepsFromMin_of, quotient_of, clampedRaw_of;
    cbn [nullish_or];
    pose proof (effective_step_finite p Hstep) as Hs;
    pose proof (effective_step_truthy (step p)) as Hs';
    fold (effective_step p) in Hs';
    (assert (Hf : isFinite (pow10 (Z.to_nat (stepDecimals p))) = true)
       by (apply pow10_finite; lia));
    pose proof (pow10_truthy (Z.to_nat (stepDecimals p))) as Hf';
    apply div_not_NaN; try assumption;
    apply Math_round_not_NaN, mul_not_NaN; try assumption;
    apply isFinite_not_NaN, clamp_finite; try assumption;
    apply add_not_NaN; try assumption;
    apply mul_not_NaN; try assumption;
    apply Math_round_not_NaN, div_not_NaN; try assumption;
    apply sub_not_NaN; try assumption;
    apply clamp_finite; assumption.
Qed.

(** An instance for X9: the raw position Infinity in quarters of 0..1. *)
Lemma quantize_is_NaN_only_for_NaN_witness :
  stepDecimals (config (of_Z 0) (of_Z 1) (lit 0.25%float)) = 2 /\
  (quantize (config (of_Z 0) (of_Z 1) (lit 0.25%float)) Infinity = NaN
   <-> Infinity = NaN).
Proof.
  split; [vm_compute; reflexivity|].
  apply (quantize_is_NaN_only_for_NaN
           (config (of_Z 0) (of_Z 1) (lit 0.25%float)) Infinity);
    try reflexivity.
  vm_compute. discriminate.
Defined.

(** ** Raw positions outside the range

    The order of the numbers is transitive, so a raw position at or beyond
    a bound is clamped to that bound before anything else is computed. *)

Lemma lt_le_trans (x y z : number) :
  lt x y = true -> le y z = true -> lt x z = true.
Proof.
  unfold lt, le, SFltb, SFleb.
  destruct x as [sx| sx| |sx mx ex], y as [sy|sy| |sy my ey], z as [sz|sz| |sz mz ez];
    try destruct sx; try destruct sy; try destruct sz; cbn; try discriminate; try reflexivity;
    change (Pos.compare_cont Eq) with Pos.compare;
    destruct (Z.compare_spec ex ey), (Z.compare_spec ey ez), (Z.compare_spec ex ez);
    try discriminate; try reflexivity; try lia; subst;
    destruct (Pos.compare_spec mx my), (Pos.compare_spec my mz), (Pos.compare_spec mx mz);
    cbn; try discriminate; try reflexivity; try lia.
Qed.

Lemma not_lt_of_le (x y : number) : le x y = true -> lt y x = false.
Proof.
  unfold lt, le, SFltb, SFleb. rewrite (SFcompare_antisym x y).
  destruct (SFcompare x y) as [[| |]|]; cbn; congruence.
Qed.

(** A finite number that is not zero, divided by itself, is exactly 1. *)
Lemma div_diag (s : bool) (m : positive) (e : Z) :
  div (S754_finite s m e) (S754_finite s m e) = of_Z 1.
Proof.
  unfold div, SFdiv. rewrite xorb_nilpotent.
  unfold SFdiv_core_binary.
  replace (Zdigits2 (Zpos m) + e - (Zdigits2 (Zpos m) + e)) with 0 by lia.
  replace (e - e) with 0 by lia.
  change (Z.min (fexp prec emax 0) 0) with (-53).
  change (0 - -53) with 53.
  cbv iota beta.
  replace (Z.div_eucl (Z.shiftl (Zpos m) 53) (Zpos m)) with (2 ^ 53, 0).
  - cbv iota beta. 
    replace (new_location (Zpos m) 0) with loc_Exact.
    + vm_compute. reflexivity.
    + unfold new_location. destruct (Z.even (Zpos m)); reflexivity.
  - rewrite Z.shiftl_mul_pow2 by lia.
    generalize (Z.div_eucl_eq (Zpos m * 2 ^ 53) (Zpos m)).
    generalize (Z.mod_pos_bound (Zpos m * 2 ^ 53) (Zpos m)).
    unfold Z.modulo. destruct (Z.div_eucl (Zpos m * 2 ^ 53) (Zpos m)) as [q r].
    intros Hb He. specialize (Hb ltac:(lia)). specialize (He ltac:(lia)).
    assert (q = 2 ^ 53) by nia. assert (r = 0) by nia. subst. reflexivity.
Qed.

(** At or above [hi], the clamped value is as far from [lo] as [hi] is
    (the clamped value is [hi], up to the sign of a zero). *)
Lemma clamp_sub_above (lo hi x : number) :
  lt lo hi = true -> le hi x = true ->
  sub (Math_min hi (Math_max lo x)) lo = sub hi lo.
Proof.
  intros Hlh Hhx.
  pose proof (lt_le_trans _ _ _ Hlh Hhx) as Hlx.
  pose proof (not_lt_of_le _ _ Hhx) as Hxh.
  assert (Hmax : Math_max lo x = x).
  { destruct lo, x; try discriminate Hlx; cbn [Math_max]; rewrite ?Hlx; reflexivity. }
  rewrite Hmax.
  destruct hi as [sh|sh| |sh mh eh], x as [sx|sx| |sx mx ex];
    try discriminate Hhx; try discriminate Hlh;
    cbn [Math_min]; rewrite ?Hxh; try reflexivity.
  all: destruct lo; try discriminate Hlh; try reflexivity.
Qed.

Lemma clamp_sub_below (lo hi x : number) :
  lt lo hi = true -> le x lo = true ->
  sub (Math_min hi (Math_max lo x)) lo = sub lo lo.
Proof.
  intros Hlh Hxl.
  pose proof (not_lt_of_le _ _ Hxl) as Hlx.
  assert (Hmax : Math_max lo x = lo \/
                 exists s, lo = S754_zero true /\ Math_max lo x = S754_zero s).
  { destruct lo as [sl|sl| |sl ml el], x as [sx|sx| |sx mx ex];
      try discriminate Hxl; try discriminate Hlh;
      cbn [Math_max]; rewrite ?Hlx; auto.
    destruct sl; [right; eexists; split; reflexivity | left; reflexivity]. }
  destruct Hmax as [-> | [s [-> ->]]].
  - destruct hi as [sh|sh| |sh mh eh], lo as [sl|sl| |sl ml el];
      try discriminate Hlh; cbn [Math_min]; rewrite ?Hlh; try reflexivity.
  - destruct hi as [sh|sh| |sh mh eh]; try discriminate Hlh;
      cbn [Math_min];
      change (lt (S754_zero s) ?h) with (lt (S754_zero true) h); rewrite ?Hlh;
      destruct s; reflexivity.
Qed.

Lemma lt_not_NaN (x y : number) : lt x y = true -> x <> NaN /\ y <> NaN.
Proof. destruct x, y; intros H; split; try discriminate; discriminate H. Qed.

(** X10. On a range with [min < max], a raw position at or above [max] is
    quantized, and placed on the track, exactly as [max] is, and a raw
    position at or below [min] exactly as [min] is. *)
Theorem beyond_the_range_is_the_bound (p : Props) (x : number)
    (Hlt : lt (min p) (max p) = true) :
  (le (max p) x = true ->
   quantize p x = quantize p (max p) /\
   positionFraction p x = positionFraction p (max p)) /\
  (le x (min p) = true ->
   quantize p x = quantize p (min p) /\
   positionFraction p x = positionFraction p (min p)).
Proof.
  destruct (lt_not_NaN _ _ Hlt) as [Hlo Hhi].
  unfold quantize, positionFraction, snappedValue_of, sliderValPercent_of.
  cbn [nullish_or].
  split; intros Hx.
  - rewrite (clamp_sub_above _ _ x Hlt Hx).
    rewrite (clamp_sub_above _ _ (max p) Hlt (le_refl _ Hhi)).
    split; reflexivity.
  - rewrite (clamp_sub_below _ _ x Hlt Hx).
    rewrite (clamp_sub_below _ _ (min p) Hlt (le_refl _ Hlo)).
    split; reflexivity.
Qed.

(** An instance for X10: the raw position 250 on 0..10 in steps of 0.3. *)
Lemma beyond_the_range_is_the_bound_witness :
  lt (of_Z 0) (of_Z 10) = true /\
  le (of_Z 10) (of_Z 250) = true /\
  quantize (config (of_Z 0) (of_Z 10) (lit 0.3%float)) (of_Z 250)
  = quantize (config (of_Z 0) (of_Z 10) (lit 0.3%float)) (of_Z 10).
Proof.
  split; [reflexivity|]. split; [reflexivity|].
  apply (beyond_the_range_is_the_bound
           (config (of_Z 0) (of_Z 10) (lit 0.3%float)) (of_Z 250));
    reflexivity.
Defined.

(** X11. On a range with [min < max] whose width [max - min] is a finite
    number other than zero, [sliderValPercent] is exactly 100 for every raw
    position at or above [max], and zero for every raw position at or
    below [min]. *)
Theorem sliderValPercent_at_the_ends (p : Props) (x : number)
    (Hlt : lt (min p) (max p) = true)
    (Hfin : isFinite (sub (max p) (min p)) = true)
    (Hnz : truthy (sub (max p) (min p)) = true) :
  (le (max p) x = true -> positionFraction p x = of_Z 100) /\
  (le x (min p) = true ->
   strict_eq (positionFraction p x) (of_Z 0) = true /\
   isFinite (positionFraction p x) = true).
Proof.
  unfold positionFraction, sliderValPercent_of. cbn [nullish_or].
  rewrite Hnz. cbn [negb].
  split; intros Hx.
  - rewrite (clamp_sub_above _ _ x Hlt Hx).
    destruct (sub (max p) (min p)) as [| | |s m e]; try discriminate.
    rewrite div_diag. reflexivity.
  - rewrite (clamp_sub_below _ _ x Hlt Hx).
    assert (Hz : exists s, sub (min p) (min p) = S754_zero s).
    { destruct (min p) as [s|s| |s m e] eqn:E.
      - exists false. destruct s; reflexivity.
      - destruct (max p) as [| [|] | |]; destruct s; discriminate.
      - discriminate.
      - exists false. apply (sub_diag_zero (S754_finite s m e)). reflexivity. }
    destruct Hz as [s ->].
    destruct (sub (max p) (min p)) as [| | |s' m e]; try discriminate.
    destruct s, s'; split; reflexivity.
Qed.

(** An instance for X11: the raw positions 8 and -3 on 0.25..7.5. *)
Lemma sliderValPercent_at_the_ends_witness :
  positionFraction (config (lit 0.25%float) (lit 7.5%float) (of_Z 1)) (of_Z 8)
    = of_Z 100 /\
  strict_eq
    (positionFraction (config (lit 0.25%float) (lit 7.5%float) (of_Z 1)) (of_Z (-3)))
    (of_Z 0) = true.
Proof.
  pose proof (sliderValPercent_at_the_ends
                (config (lit 0.25%float) (lit 7.5%float) (of_Z 1))) as H.
  split.
  - apply (H (of_Z 8)); reflexivity.
  - apply (H (of_Z (-3))); reflexivity.
Defined.

(** ** What the two clamps do guarantee *)

(** X12. Whenever [min <= max], [snappedValue] is the last rounding applied
    to [clampedSnapped], and both clamped values, [clampedRaw] and
    [clampedSnapped], are NaN or lie between [min] and [max]: up to the
    last rounding the value is in the range. *)
Theorem clamps_hold_before_rounding (p : Props) (raw : maybe_number)
    (Hle : le (min p) (max p) = true) :
  snappedValue_of p raw = roundToStepPrecision p (clampedSnapped_of p raw) /\
  (clampedRaw_of p raw = NaN \/
   (le (min p) (clampedRaw_of p raw) = true /\
    le (clampedRaw_of p raw) (max p) = true)) /\
  (clampedSnapped_of p raw = NaN \/
   (le (min p) (clampedSnapped_of p raw) = true /\
    le (clampedSnapped_of p raw) (max p) = true)).
Proof.
  split; [apply snappedValue_of_steps|].
  split; apply clamp_in_range; exact Hle.
Qed.

(** An instance for X12: on 0.25..10 with step 1 the raw position 0 is
    clamped to 0.25 before the last rounding. *)
Lemma clamps_hold_before_rounding_witness :
  le (lit 0.25%float) (of_Z 10) = true /\
  quantize (config (lit 0.25%float) (of_Z 10) (of_Z 1)) (of_Z 0)
    = roundToStepPrecision (config (lit 0.25%float) (of_Z 10) (of_Z 1))
        (clampedSnapped_of (config (lit 0.25%float) (of_Z 10) (of_Z 1)) (Num (of_Z 0))) /\
  clampedSnapped_of (config (lit 0.25%float) (of_Z 10) (of_Z 1)) (Num (of_Z 0))
    = lit 0.25%float.
Proof.
  split; [reflexivity|]. split; [|reflexivity].
  apply (clamps_hold_before_rounding
           (config (lit 0.25%float) (of_Z 10) (of_Z 1)) (Num (of_Z 0))).
  reflexivity.
Defined.

(** X13. On a range of zero width ([max] is [min], finite, with a finite
    step) every raw position but NaN is quantized to one and the same
    value, [roundToStepPrecision(min)], and [sliderValPercent] is 0. *)
Theorem zero_width_range_is_constant (p : Props) (x y : number)
    (Hwidth : max p = min p)
    (Hmin : isFinite (min p) = true)
    (Hstep : isFinite (step p) = true)
    (Hx : x <> NaN) (Hy : y <> NaN) :
  quantize p x = quantize p y /\
  quantize p x = roundToStepPrecision p (min p) /\
  positionFraction p x = of_Z 0.
Proof.
  rewrite (quantize_zero_width p x Hwidth Hmin Hstep Hx).
  rewrite (quantize_zero_width p y Hwidth Hmin Hstep Hy).
  split; [reflexivity|]. split; [reflexivity|].
  apply sliderValPercent_zero_span. rewrite Hwidth.
  apply strict_eq_refl. destruct (min p); discriminate.
Qed.

(** An instance for X13: the raw positions 9 and -4 on 2.5..2.5. *)
Lemma zero_width_range_is_constant_witness :
  quantize (config (lit 2.5%float) (lit 2.5%float) (lit 0.5%float)) (of_Z 9)
  = quantize (config (lit 2.5%float) (lit 2.5%float) (lit 0.5%float)) (of_Z (-4)).
Proof.
  apply (zero_width_range_is_constant
           (config (lit 2.5%float) (lit 2.5%float) (lit 0.5%float))
           (of_Z 9) (of_Z (-4)));
    try reflexivity; discriminate.
Defined.

(** ** The decimals of the step *)

Lemma ends_with_append (a b : string) (c : ascii) :
  b <> EmptyString -> ends_with (a ++ b) c = ends_with b c.
Proof.
  intros Hb. induction a as [|d a IH]; [reflexivity|].
  cbn [append ends_with]. rewrite IH.
  destruct (a ++ b) eqn:E; [|reflexivity].
  destruct a; cbn in E; [contradiction | discriminate].
Qed.

Lemma digits_only_ends (s : string) :
  digits_only s = true -> s <> EmptyString -> ends_with s "." = false.
Proof.
  induction s as [|d rest IH]; intros H Hne; [now elim Hne|].
  cbn [digits_only] in H. destruct (digit_of d) eqn:Ed; [|discriminate].
  cbn [ends_with]. destruct rest as [|d' rest'].
  - destruct (Ascii.eqb d ".") eqn:E; [|reflexivity].
    apply Ascii.eqb_eq in E. subst d. vm_compute in Ed. discriminate.
  - apply IH; [exact H | discriminate].
Qed.

Lemma digits_only_append (a b : string) :
  digits_only a = true -> digits_only b = true -> digits_only (a ++ b) = true.
Proof.
  intros Ha Hb. induction a as [|d a IH]; [exact Hb|].
  cbn [append digits_only] in *. destruct (digit_of d); [auto | discriminate].
Qed.

Lemma digits_only_zeros (n : nat) : digits_only (zeros n) = true.
Proof. induction n as [|n IH]; [reflexivity|]. cbn [zeros digits_only]. exact IH. Qed.

Lemma digits_only_substring (s : string) (n m : nat) :
  digits_only s = true -> digits_only (substring n m s) = true.
Proof.
  revert n m. induction s as [|d s IH]; intros n m H.
  - destruct n, m; reflexivity.
  - cbn [digits_only] in H. destruct (digit_of d) eqn:Ed; [|discriminate].
    destruct n as [|n]; cbn [substring].
    + destruct m as [|m]; [reflexivity|]. cbn [digits_only]. rewrite Ed.
      apply IH, H.
    + apply IH, H.
Qed.

Lemma length_substring (s : string) (n m : nat) :
  (n + m <= String.length s)%nat -> String.length (substring n m s) = m.
Proof.
  revert n m. induction s as [|d s IH]; intros n m H; cbn [String.length] in H.
  - assert (n = 0%nat) by lia. assert (m = 0%nat) by lia. subst. reflexivity.
  - destruct n as [|n]; cbn [substring].
    + destruct m as [|m]; [reflexivity|]. cbn [String.length].
      rewrite (IH 0%nat m) by lia. reflexivity.
    + apply IH. lia.
Qed.

Lemma digits_only_string_of_uint (u : Decimal.uint) :
  digits_only (NilEmpty.string_of_uint u) = true.
Proof. induction u; cbn [NilEmpty.string_of_uint digits_only]; try reflexivity; exact IHu. Qed.

Lemma digits_of_digits (z : Z) :
  digits_only (digits_of z) = true /\ digits_of z <> EmptyString.
Proof.
  unfold digits_of, NilZero.string_of_uint.
  destruct (N.to_uint (Z.to_N z)) eqn:E;
    try (split; [apply digits_only_string_of_uint | discriminate]).
  split; [reflexivity | discriminate].
Qed.

Lemma ends_with_digits (a b : string) :
  digits_only b = true -> b <> EmptyString -> ends_with (a ++ b) "." = false.
Proof.
  intros Hd Hne. rewrite ends_with_append by exact Hne.
  apply digits_only_ends; assumption.
Qed.

Lemma nonempty_of_length (s : string) : (0 < String.length s)%nat -> s <> EmptyString.
Proof. destruct s; cbn; [lia | discriminate]. Qed.

Lemma append_nonempty (a b : string) : b <> EmptyString -> a ++ b <> EmptyString.
Proof. destruct a; cbn; [auto | discriminate]. Qed.

(** A decimal text that [String] writes is not empty and does not end
    with a point. *)
Lemma to_string_positive_end (x : number) (m : positive) (e : Z) :
  ends_with (to_string_positive x m e) "." = false /\
  to_string_positive x m e <> EmptyString.
Proof.
  unfold to_string_positive.
  destruct (to_fraction m e) as [num den].
  destruct (shortest_digits 17 x num den (decimal_exponent num den) 1) as [s n].
  cbv zeta.
  destruct (digits_of_digits s) as [Hds Hne].
  set (ds := digits_of s) in *.
  set (k := Z.of_nat (String.length ds)).
  assert (Hk : 0 < k).
  { subst k. destruct ds; [now elim Hne | cbn [String.length]; lia]. }
  destruct ((k <=? n) && (n <=? 21)) eqn:C1.
  { split.
    - apply digits_only_ends.
      + apply digits_only_append; [exact Hds | apply digits_only_zeros].
      + destruct ds; [now elim Hne | discriminate].
    - destruct ds; [now elim Hne | discriminate]. }
  destruct ((0 <? n) && (n <=? 21)) eqn:C2.
  { assert (Hn : 0 < n < k).
    { apply andb_true_iff in C2 as [H1 H2]. apply Z.ltb_lt in H1.
      apply andb_false_iff in C1 as [C1 | C1]; [apply Z.leb_gt in C1; lia | congruence]. }
    assert (Htail : substring (Z.to_nat n) (Z.to_nat (k - n)) ds <> EmptyString).
    { apply nonempty_of_length. rewrite length_substring; subst k; lia. }
    split.
    - rewrite ends_with_append by (apply append_nonempty; exact Htail).
      apply ends_with_digits; [apply digits_only_substring; exact Hds | exact Htail].
    - apply append_nonempty, append_nonempty, Htail. }
  destruct ((-6 <? n) && (n <=? 0)) eqn:C3.
  { split.
    - rewrite ends_with_append by (apply append_nonempty; exact Hne).
      apply ends_with_digits; assumption.
    - discriminate. }
  destruct (digits_of_digits (Z.abs (n - 1))) as [Hex Hexne].
  set (ex := (if n - 1 <? 0 then "-" else "+") ++ digits_of (Z.abs (n - 1))).
  assert (Hexp : ends_with ("e" ++ ex) "." = false /\ "e" ++ ex <> EmptyString).
  { split; [|discriminate]. subst ex.
    rewrite ends_with_append by (apply append_nonempty; exact Hexne).
    apply ends_with_digits; assumption. }
  destruct Hexp as [Hexp Hexpne].
  destruct (k =? 1).
  - split; [|apply append_nonempty; exact Hexpne].
    rewrite ends_with_append by exact Hexpne. exact Hexp.
  - split; [|apply append_nonempty, append_nonempty, append_nonempty; exact Hexpne].
    rewrite ends_with_append
      by (apply append_nonempty, append_nonempty; exact Hexpne).
    rewrite ends_with_append by (apply append_nonempty; exact Hexpne).
    rewrite ends_with_append by exact Hexpne. exact Hexp.
Qed.

Lemma String_end (x : number) : ends_with (String_ x) "." = false.
Proof.
  destruct x as [s|s| |s m e]; cbn [String_]; try reflexivity.
  - destruct s; reflexivity.
  - destruct (to_string_positive_end (S754_finite false m e) m e) as [H Hne].
    rewrite ends_with_append by exact Hne. exact H.
Qed.

(** The first [c] of a text that does not end with [c] is followed by a
    character. *)
Lemma indexOf_from_inner (s : string) (c : ascii) (i : Z) :
  ends_with s c = false ->
  indexOf_from s c i = -1 \/
  i <= indexOf_from s c i < i + Z.of_nat (String.length s) - 1.
Proof.
  revert i. induction s as [|d rest IH]; intros i H; cbn [indexOf_from String.length].
  - left. reflexivity.
  - cbn [ends_with] in H. destruct (Ascii.eqb d c) eqn:E.
    + right. destruct rest; [discriminate | cbn [String.length]; lia].
    + destruct rest as [|d' rest'].
      * left. reflexivity.
      * destruct (IH (i + 1) H) as [E' | E']; [left; exact E' | right; lia].
Qed.

(** X14. [stepDecimals] is never negative and never more than the length
    of the text of the step.  The text that [String] writes for a number
    never ends with its point, so [stepDecimals] is 0 exactly when the text
    of the step has no point; when it has one, [stepDecimals] is the
    number of characters after the first point, which is at least 1. *)
Theorem stepDecimals_bounds (p : Props) :
  0 <= stepDecimals p /\
  stepDecimals p <= Z.of_nat (String.length (String_ (effective_step p))) /\
  ends_with (String_ (effective_step p)) "." = false /\
  (stepDecimals p = 0 <-> indexOf (String_ (effective_step p)) "." = -1) /\
  (indexOf (String_ (effective_step p)) "." <> -1 ->
   1 <= stepDecimals p /\
   stepDecimals p
     = Z.of_nat (String.length (String_ (effective_step p)))
       - indexOf (String_ (effective_step p)) "." - 1).
Proof.
  pose proof (String_end (effective_step p)) as Hend.
  unfold stepDecimals, effective_step, indexOf in *.
  set (s := String_ (or_else (step p) (of_Z 1))) in *.
  destruct (indexOf_from_inner s "." 0 Hend) as [E | E].
  - rewrite E. cbn. repeat split; try lia; auto.
  - destruct (indexOf_from s "." 0 =? -1) eqn:T; [lia|].
    repeat split; try lia; auto.
Qed.

(** * The model picker *)

Section ModelSelect_properties.

Import ModelSelect.

Context {Model : Type} (model name getModelIcon : Model -> string).

Lemma paired_snoc (l : list Emission) (v : string) :
  paired l = true ->
  paired (l ++ [UpdateModelValue v; Change v v])%list = true.
Proof.
  remember (List.length l) as n eqn:Hn. revert l Hn.
  induction n as [n IH] using lt_wf_ind. intros l Hn.
  destruct l as [|[u|t s] [|[u'|t' s'] rest]]; cbn; try discriminate.
  - intros _. rewrite String.eqb_refl. reflexivity.
  - intros H. apply andb_true_iff in H as [H1 H2]. rewrite H1.
    apply (IH (List.length rest)); [subst n; cbn; lia | reflexivity | exact H2].
Qed.

Lemma handle_paired (st : State Model) (ev : Event Model) :
  (paired (emitted st) = true -> paired (emitted (handle model st ev)) = true) /\
  List.length (emitted (handle model st ev))
    = (List.length (emitted st) + if selects ev then 2 else 0)%nat.
Proof.
  destruct ev as [m|event m|open|value]; cbn [handle selects].
  - split; [apply paired_snoc|]. cbn. rewrite length_app. reflexivity.
  - unfold handleKeydown.
    destruct (String.eqb (key event) "Enter" || String.eqb (key event) " ").
    + split; [apply paired_snoc|]. cbn. rewrite length_app. reflexivity.
    + destruct (String.eqb (key event) "Escape"); cbn; split; auto.
  - cbn. split; auto.
  - cbn. split; auto.
Qed.

Lemma run_paired (st : State Model) (evs : list (Event Model)) :
  paired (emitted st) = true ->
  paired (emitted (run model st evs)) = true /\
  List.length (emitted (run model st evs))
    = (List.length (emitted st) + 2 * List.length (filter selects evs))%nat.
Proof.
  revert st. induction evs as [|ev evs IH]; intros st H.
  - cbn. split; [exact H | lia].
  - cbn [run fold_left]. destruct (handle_paired st ev) as (Hp & Hl).
    destruct (IH (handle model st ev) (Hp H)) as [IH1 IH2].
    split; [exact IH1|]. unfold run in IH2. rewrite IH2, Hl. cbn [filter].
    destruct (selects ev); cbn [List.length]; lia.
Qed.

(** X15. Whatever happens to a model picker (clicks, keys, the dropdown
    opening and closing, the parent passing values), its emissions come in
    pairs: an [update:modelValue] with an identifier, then a [change] whose
    [target.value] and [srcElement.value] are that identifier; and there
    are exactly two emissions for every click and every Enter or Space. *)
Theorem emissions_come_in_pairs (p : Props Model) (evs : list (Event Model)) :
  paired (emitted (run model (setup p) evs)) = true /\
  List.length (emitted (run model (setup p) evs))
    = (2 * List.length (filter selects evs))%nat.
Proof. apply (run_paired (setup p) evs). reflexivity. Qed.

(** What [find] finds: the first entry that passes the test. *)
Lemma find_split (f : Model -> bool) (l : list Model) :
  match find f l with
  | Some m =>
      exists before after,
        l = (before ++ m :: after)%list /\ f m = true /\
        forall m', In m' before -> f m' = false
  | None => forall m, In m l -> f m = false
  end.
Proof.
  induction l as [|a l IH]; cbn [find].
  - intros m [].
  - destruct (f a) eqn:E.
    + exists [], l. split; [reflexivity|]. split; [exact E|]. intros m' [].
    + destruct (find f l) as [m|].
      * destruct IH as (before & after & -> & Hm & Hb).
        exists (a :: before), after. split; [reflexivity|]. split; [exact Hm|].
        intros m' [<- | Hin]; [exact E | apply Hb, Hin].
      * intros m [<- | Hin]; [exact E | apply IH, Hin].
Qed.

(** X16. [selectedModel] is the first entry of [modelList] whose [model]
    is [modelValue], and the trigger shows its name and icon; when no entry
    has that identifier it is [null], and the trigger shows
    [Select a model] and no icon. *)
Theorem selectedModel_is_the_first_match (p : Props Model) :
  match selectedModel model p with
  | Some m =>
      (exists before after,
          modelList p = (before ++ m :: after)%list /\
          forall m', In m' before -> model m' <> modelValue p) /\
      model m = modelValue p /\
      selectedModelName model name p = name m /\
      selectedModelIcon model getModelIcon p = getModelIcon m
  | None =>
      (forall m, In m (modelList p) -> model m <> modelValue p) /\
      selectedModelName model name p = "Select a model" /\
      selectedModelIcon model getModelIcon p = ""
  end.
Proof.
  unfold selectedModelName, selectedModelIcon.
  pose proof (find_split (fun m => String.eqb (model m) (modelValue p)) (modelList p)) as H.
  unfold selectedModel.
  destruct (find _ (modelList p)) as [m|].
  - destruct H as (before & after & Hl & Hm & Hb).
    split; [|split; [apply String.eqb_eq, Hm | split; reflexivity]].
    exists before, after. split; [exact Hl|].
    intros m' Hin. apply String.eqb_neq, Hb, Hin.
  - split; [|split; reflexivity].
    intros m Hin. apply String.eqb_neq, H, Hin.
Qed.

Lemma NoDup_map_inj (l : list Model) (a b : Model) :
  NoDup (map model l) -> In a l -> In b l -> model a = model b -> a = b.
Proof.
  induction l as [|c l IH]; intros Hnd Ha Hb Hab; [destruct Ha|].
  cbn [map] in Hnd. inversion Hnd as [|x xs Hnotin Hnd']; subst.
  destruct Ha as [<- | Ha], Hb as [<- | Hb].
  - reflexivity.
  - exfalso. apply Hnotin. rewrite Hab. apply in_map, Hb.
  - exfalso. apply Hnotin. rewrite <- Hab. apply in_map, Ha.
  - apply IH; assumption.
Qed.

Lemma last_update_selected (l : list Emission) (v t u : string) :
  last_update (l ++ [UpdateModelValue v; Change t u])%list = Some v.
Proof.
  induction l as [|[w|w w'] l IH]; cbn [app last_update]; [reflexivity| |exact IH].
  rewrite IH. reflexivity.
Qed.

(** X17. Selecting an entry of the list emits its identifier, and a
    parent that passes the identifier emitted back as [modelValue] finds
    the dropdown closed and [selectedModel] an entry with that identifier;
    when the identifiers of the list are pairwise different it is the
    entry selected, shown with its name and icon. *)
Theorem selecting_an_entry_selects_it
    (st : State Model) (m : Model)
    (Hin : In m (modelList (props st))) :
  let st' := v_model model (selectModel model m st) in
  last_update (emitted (selectModel model m st)) = Some (model m) /\
  modelValue (props st') = model m /\
  modelList (props st') = modelList (props st) /\
  isOpen st' = false /\
  emitted st' = emitted (selectModel model m st) /\
  (exists m', selectedModel model (props st') = Some m' /\ model m' = model m) /\
  (NoDup (map model (modelList (props st))) ->
   selectedModel model (props st') = Some m /\
   selectedModelName model name (props st') = name m /\
   selectedModelIcon model getModelIcon (props st') = getModelIcon m).
Proof.
  assert (Hlast : last_update (emitted (selectModel model m st)) = Some (model m))
    by apply last_update_selected.
  unfold v_model. rewrite Hlast.
  cbn [handle selectModel props isOpen modelList modelValue emitted].
  split; [reflexivity|].
  split; [reflexivity|]. split; [reflexivity|]. split; [reflexivity|].
  split; [reflexivity|].
  set (p' := {| modelValue := model m; modelList := modelList (props st) |}).
  assert (Hfound : exists m', selectedModel model p' = Some m' /\ model m' = model m /\
                              In m' (modelList (props st))).
  { unfold selectedModel.
    pose proof (find_split (fun m0 => String.eqb (model m0) (modelValue p'))
                  (modelList p')) as H.
    destruct (find _ (modelList p')) as [m'|].
    - destruct H as (before & after & Hl & Hm & _). exists m'.
      split; [reflexivity|]. split; [apply String.eqb_eq, Hm|].
      cbn [modelList p'] in Hl. rewrite Hl. apply in_or_app. right. left. reflexivity.
    - specialize (H m Hin). cbn [modelValue p'] in H.
      rewrite String.eqb_refl in H. discriminate. }
  destruct Hfound as (m' & Hsel & Hm & Hin').
  split; [exists m'; split; assumption|].
  intros Hnd.
  assert (m' = m) by (apply (NoDup_map_inj _ _ _ Hnd Hin' Hin Hm)). subst m'.
  unfold selectedModelName, selectedModelIcon. rewrite Hsel.
  split; [reflexivity|]. split; reflexivity.
Qed.

End ModelSelect_properties.

(** An instance for X17: entries are pairs of an identifier and a name;
    the dropdown is open and shows the first entry when the second is
    selected. *)
Lemma selecting_an_entry_selects_it_witness :
  let st := ModelSelect.run fst
              (ModelSelect.setup
                 {| ModelSelect.modelValue := "llama";
                    ModelSelect.modelList := [("llama", "Llama 3"); ("gpt", "GPT")] |})
              [ModelSelect.SetOpen true] in
  let st' := ModelSelect.v_model fst (ModelSelect.selectModel fst ("gpt", "GPT") st) in
  ModelSelect.isOpen st = true /\
  ModelSelect.selectedModelName fst snd (ModelSelect.props st) = "Llama 3" /\
  In ("gpt", "GPT") (ModelSelect.modelList (ModelSelect.props st)) /\
  ModelSelect.isOpen st' = false /\
  ModelSelect.modelValue (ModelSelect.props st') = "gpt" /\
  ModelSelect.selectedModelName fst snd (ModelSelect.props st') = "GPT".
Proof.
  cbv zeta.
  split; [reflexivity|]. split; [reflexivity|].
  split; [right; left; reflexivity|].
  destruct (selecting_an_entry_selects_it fst snd snd
              (ModelSelect.run fst
                 (ModelSelect.setup
                    {| ModelSelect.modelValue := "llama";
                       ModelSelect.modelList := [("llama", "Llama 3"); ("gpt", "GPT")] |})
                 [ModelSelect.SetOpen true])
              ("gpt", "GPT") (or_intror (or_introl eq_refl)))
    as (_ & Hvalue & _ & Hopen & _ & _ & Hselected).
  split; [exact Hopen|]. split; [exact Hvalue|].
  apply Hselected.
  repeat constructor; cbn; intuition discriminate.
Defined.

(** * The options panel *)

(** The property created, replaced or defined is there, and the other
    properties are as they were. *)
Lemma own_replace_same (o : Options.object) (key : string) (v : Options.value) :
  Options.own o key <> None ->
  Options.own (Options.replace o key v) key = Some v.
Proof.
  induction o as [|[k w] rest IH]; cbn [Options.replace Options.own].
  - intros H. now elim H.
  - destruct (String.eqb k key) eqn:E; cbn [Options.own]; rewrite E; auto.
Qed.

Lemma own_replace_other (o : Options.object) (key k : string) (v : Options.value) :
  k <> key -> Options.own (Options.replace o key v) k = Options.own o k.
Proof.
  intros Hk. induction o as [|[k' w] rest IH]; cbn [Options.replace Options.own].
  - reflexivity.
  - destruct (String.eqb k' key) eqn:E; cbn [Options.own].
    + apply String.eqb_eq in E. subst k'.
      destruct (String.eqb key k) eqn:E'; [|reflexivity].
      apply String.eqb_eq in E'. congruence.
    + destruct (String.eqb k' k); [reflexivity | exact IH].
Qed.

Lemma own_create_same (o : Options.object) (key : string) (v : Options.value) :
  Options.own o key = None ->
  Options.own (Options.create o key v) key = Some v.
Proof.
  induction o as [|[k w] rest IH]; cbn [Options.create Options.own].
  - rewrite String.eqb_refl. reflexivity.
  - destruct (String.eqb k key) eqn:E; [discriminate|]. intros H.
    destruct (Options.goes_before key k); cbn [Options.own].
    + rewrite String.eqb_refl. reflexivity.
    + rewrite E. apply IH, H.
Qed.

Lemma own_create_other (o : Options.object) (key k : string) (v : Options.value) :
  k <> key -> Options.own (Options.create o key v) k = Options.own o k.
Proof.
  intros Hk.
  assert (Hneq : String.eqb key k = false) by (apply String.eqb_neq; congruence).
  induction o as [|[k' w] rest IH]; cbn [Options.create Options.own].
  - rewrite Hneq. reflexivity.
  - destruct (Options.goes_before key k'); cbn [Options.own].
    + rewrite Hneq. reflexivity.
    + destruct (String.eqb k' k); [reflexivity | exact IH].
Qed.

Lemma own_define_same (o : Options.object) (key : string) (v : Options.value) :
  Options.own (Options.define o key v) key = Some v.
Proof.
  unfold Options.define. destruct (Options.own o key) eqn:E.
  - apply own_replace_same. congruence.
  - apply own_create_same, E.
Qed.

Lemma own_define_other (o : Options.object) (key k : string) (v : Options.value) :
  k <> key -> Options.own (Options.define o key v) k = Options.own o k.
Proof.
  intros Hk. unfold Options.define. destruct (Options.own o key).
  - apply own_replace_other, Hk.
  - apply own_create_other, Hk.
Qed.

(** The keys of a copy are the keys of the original, and a copy holds
    under each key what the holder of the original answers. *)
Lemma keys_spread (p : Options.proxy) (o : Options.object) :
  map fst (Options.spread p o) = map fst o.
Proof. unfold Options.spread. rewrite map_map. reflexivity. Qed.

Lemma own_map_values (f : string -> Options.value) (l : Options.object) (k : string) :
  Options.own (map (fun kv => (fst kv, f (fst kv))) l) k
  = match Options.own l k with
    | Some _ => Some (f k)
    | None => None
    end.
Proof.
  induction l as [|[k' w] rest IH]; cbn [map Options.own fst]; [reflexivity|].
  destruct (String.eqb k' k) eqn:E; [|exact IH].
  apply String.eqb_eq in E. subst k'. reflexivity.
Qed.

Lemma own_spread (p : Options.proxy) (o : Options.object) (k : string) :
  Options.own (Options.spread p o) k
  = match Options.own o k with
    | Some _ => Some (Options.get p o k)
    | None => None
    end.
Proof. apply own_map_values. Qed.

(** The object that a toggle emits, property by property, and as it reads
    through the holder of the prop. *)
Lemma own_next (key : string) (p : Options.proxy) (o : Options.object) (k : string) :
  Options.own (Options.next key p o) k
  = if String.eqb k key
    then Some (Options.logical_not (Options.get p o key))
    else match Options.own o k with
         | Some _ => Some (Options.get p o k)
         | None => None
         end.
Proof.
  unfold Options.next. destruct (String.eqb k key) eqn:E.
  - apply String.eqb_eq in E. subst k. apply own_define_same.
  - apply String.eqb_neq in E. rewrite own_define_other by exact E.
    apply own_spread.
Qed.

Lemma get_next (key : string) (p : Options.proxy) (o : Options.object) (k : string) :
  Options.get p (Options.next key p o) k
  = match p k with
    | Some answer => answer
    | None =>
        if String.eqb k key
        then Options.logical_not (Options.get p o key)
        else Options.get p o k
    end.
Proof.
  unfold Options.get at 1. destruct (p k) as [a|] eqn:Ep; [reflexivity|].
  rewrite own_next. destruct (String.eqb k key); [reflexivity|].
  unfold Options.get. rewrite Ep. destruct (Options.own o k); reflexivity.
Qed.

(** Where a key goes. *)
Lemma keys_replace (o : Options.object) (key : string) (v : Options.value) :
  map fst (Options.replace o key v) = map fst o.
Proof.
  induction o as [|[k w] rest IH]; cbn [Options.replace map fst]; [reflexivity|].
  destruct (String.eqb k key); cbn [map fst]; [reflexivity|].
  rewrite IH. reflexivity.
Qed.










Section Options_properties.

Import Options.

Context {Data : Type} (JSON_parse : string -> option Data).


(** X19. Toggling a key of the object that a first toggle of that key
    emitted, which the parent holds by [p'], gives an object with the same
    keys, in which every other key holds what the object of the first
    toggle answers under it.  Under the key itself it holds the truth
    value of what the prop answered at first, unless the holder answers
    the key by itself: then it holds the negation of that answer, as
    after the first toggle, so that such a key (with Vue's proxies,
    [hasOwnProperty]) is never toggled back.  For a key that the holder
    does not answer and that held a boolean, two toggles restore every
    property. *)
Theorem toggling_twice (key : string) (p p' : proxy) (o : object) :
  own (next key p' (next key p o)) key
    = Some (match p' key with
            | Some answer => Bool (negb (ToBoolean answer))
            | None => Bool (ToBoolean (get p o key))
            end) /\
  map fst (next key p' (next key p o)) = map fst (next key p o) /\
  (forall k, k <> key ->
             own (next key p' (next key p o)) k
             = match own (next key p o) k with
               | Some v => Some (match p' k with
                                 | Some answer => answer
                                 | None => v
                                 end)
               | None => None
               end) /\
  (forall answer, p key = Some answer ->
                  own (next key p (next key p o)) key = own (next key p o) key) /\
  (forall b, p key = None -> get p o key = Bool b ->
             forall k, get p (next key p (next key p o)) k = get p o k).
Proof.
  assert (Hkey : forall q : proxy,
             own (next key q (next key p o)) key
             = Some (match q key with
                     | Some answer => Bool (negb (ToBoolean answer))
                     | None => Bool (ToBoolean (get p o key))
                     end)).
  { intros q. rewrite own_next, String.eqb_refl. unfold get at 1.
    rewrite own_next, String.eqb_refl.
    destruct (q key) as [a|]; [reflexivity|].
    unfold logical_not. cbn [ToBoolean]. rewrite negb_involutive. reflexivity. }
  split; [apply Hkey|].
  split.
  { unfold next at 1. unfold define.
    rewrite own_spread, own_next, String.eqb_refl.
    rewrite keys_replace. apply keys_spread. }
  split.
  { intros k Hk. rewrite own_next.
    replace (String.eqb k key) with false
      by (symmetry; apply String.eqb_neq; exact Hk).
    unfold get at 1.
    destruct (own (next key p o) k) as [v|]; [|reflexivity].
    destruct (p' k); reflexivity. }
  split.
  { intros a Ha. rewrite Hkey, own_next, String.eqb_refl, Ha.
    unfold get. rewrite Ha. reflexivity. }
  intros b Hp Hb k. rewrite !get_next.
  destruct (p k) as [a|] eqn:Ek.
  - unfold get. rewrite Ek. reflexivity.
  - destruct (String.eqb k key) eqn:E; [|reflexivity].
    apply String.eqb_eq in E. subst k.
    rewrite ?Hp, ?String.eqb_refl, Hb. unfold logical_not. cbn [ToBoolean].
    rewrite negb_involutive. reflexivity.
Qed.

(** X20. Toggles of two different keys commute: in either order the
    object emitted last answers the same value under every key, for a
    parent that holds the prop and the objects emitted in one and the same
    way, the values being read through that holder (for plain objects:
    the values that they hold or inherit). *)
Theorem toggles_commute (key1 key2 : string) (p : proxy) (o : object)
    (Hkeys : key1 <> key2) :
  forall k, get p (next key1 p (next key2 p o)) k
            = get p (next key2 p (next key1 p o)) k.
Proof.
  assert (N12 : String.eqb key1 key2 = false) by (apply String.eqb_neq; exact Hkeys).
  assert (N21 : String.eqb key2 key1 = false) by (apply String.eqb_neq; congruence).
  intros k. rewrite !get_next.
  destruct (p k) as [a|] eqn:Ek; [reflexivity|].
  destruct (String.eqb k key1) eqn:E1, (String.eqb k key2) eqn:E2;
    try reflexivity.
  - apply String.eqb_eq in E1, E2. congruence.
  - apply String.eqb_eq in E1. subst k. rewrite Ek, N12. reflexivity.
  - apply String.eqb_eq in E2. subst k. rewrite Ek, N21. reflexivity.
Qed.

End Options_properties.

Section Options_sensor.

Import Options.

Context {Data : Type} (JSON_parse : string -> option Data).

Lemma onmessage_messages (text : string) (st : State Data) (older : list Data) :
  messages st = firstn 100 older ->
  messages (onmessage JSON_parse text st)
  = firstn 100 (match JSON_parse text with
                | Some data => data :: older
                | None => older
                end).
Proof.
  intros H. unfold onmessage. destruct (JSON_parse text) as [data|]; [|exact H].
  cbn [messages]. rewrite H.
  change (List.length (data :: firstn 100 older)) with (S (List.length (firstn 100 older))).
  rewrite length_firstn.
  destruct (Nat.le_gt_cases 100 (List.length older)) as [Hlong | Hshort].
  - rewrite Nat.min_l by exact Hlong.
    change (100 <? 101)%nat with true. cbv iota.
    change (data :: firstn 100 older) with (firstn 101 (data :: older)).
    apply removelast_firstn. cbn [List.length]. lia.
  - rewrite Nat.min_r by lia.
    replace (100 <? S (List.length older))%nat with false
      by (symmetry; apply Nat.ltb_ge; lia).
    rewrite firstn_all2 by lia.
    change (firstn 100 (data :: older)) with (data :: firstn 99 older).
    rewrite firstn_all2 by lia. reflexivity.
Qed.

Lemma run_messages (st : State Data) (evs : list Event) (older : list Data) :
  messages st = firstn 100 older ->
  messages (run JSON_parse st evs)
  = firstn 100 (rev (parsed JSON_parse evs) ++ older)%list.
Proof.
  revert st older. induction evs as [|ev evs IH]; intros st older H; [exact H|].
  cbn [run fold_left]. 
  destruct ev as [|key|text| |c|given given_holder]; cbn [parsed handle];
    try (apply IH; cbn; try exact H).
  - unfold handleSensor. destruct (enableSensor st); [unfold closeConnection|];
      try destruct (eventSource st); exact H.
  - pose proof (onmessage_messages text st older H) as Hm.
    destruct (JSON_parse text) as [data|] eqn:E.
    + unfold run in IH. rewrite (IH _ (data :: older) Hm).
      cbn [rev]. rewrite <- app_assoc. reflexivity.
    + apply IH. exact Hm.
  - unfold onerror. destruct (eventSource st); exact H.
Qed.

(** X21. The buffer [messages] holds the data of the newest 100 messages
    that parsed, newest first, whatever else happens in between: it never
    grows beyond 100 entries. *)
Theorem messages_are_the_newest_100
    (st : State Data) (evs : list Event)
    (Hfits : (List.length (messages st) <= 100)%nat) :
  messages (run JSON_parse st evs)
    = firstn 100 (rev (parsed JSON_parse evs) ++ messages st)%list /\
  (List.length (messages (run JSON_parse st evs)) <= 100)%nat.
Proof.
  assert (H : messages (run JSON_parse st evs)
              = firstn 100 (rev (parsed JSON_parse evs) ++ messages st)%list).
  { apply run_messages. symmetry. apply firstn_all2. exact Hfits. }
  split; [exact H|]. rewrite H. rewrite length_firstn. lia.
Qed.

Lemma enableSensor_handle (st : State Data) (ev : Event) :
  enableSensor st = false ->
  enableSensor (handle JSON_parse st ev) = false /\
  closed (handle JSON_parse st ev) = closed st /\
  sensorUri (handle JSON_parse st ev) = sensorUri st /\
  created (handle JSON_parse st ev)
    = (created st ++ if is_HandleSensor ev then [sensorUri st] else [])%list.
Proof.
  intros H. destruct ev as [|key|text| |c|given given_holder];
    cbn [handle is_HandleSensor].
  - unfold handleSensor. rewrite H. cbn. auto.
  - cbn. rewrite app_nil_r. auto.
  - unfold onmessage. destruct (JSON_parse text); cbn; rewrite app_nil_r; auto.
  - cbn. rewrite app_nil_r. auto.
  - unfold onerror. destruct (eventSource st); cbn; rewrite app_nil_r; auto.
  - cbn. rewrite app_nil_r. auto.
Qed.

(** X22. [enableSensor] is never set, so [handleSensor] never closes a
    connection: over any sequence of events no event source is closed, and
    every call of [handleSensor] creates one more, for [sensorUri]. *)
Theorem handleSensor_never_closes
    (st : State Data) (evs : list Event)
    (Hoff : enableSensor st = false) :
  enableSensor (run JSON_parse st evs) = false /\
  closed (run JSON_parse st evs) = closed st /\
  created (run JSON_parse st evs)
    = (created st
       ++ repeat (sensorUri st) (List.length (filter is_HandleSensor evs)))%list.
Proof.
  revert st Hoff. induction evs as [|ev evs IH]; intros st Hoff.
  - cbn. rewrite app_nil_r. auto.
  - cbn [run fold_left].
    destruct (enableSensor_handle st ev Hoff) as (He & Hc & Hu & Hcr).
    destruct (IH _ He) as (IH1 & IH2 & IH3). unfold run in *.
    split; [exact IH1|]. split; [congruence|].
    rewrite IH3, Hcr, Hu. cbn [filter].
    destruct (is_HandleSensor ev); cbn [List.length repeat].
    + rewrite <- app_assoc. reflexivity.
    + rewrite app_nil_r. reflexivity.
Qed.

End Options_sensor.

(** An instance for X20: the keys [vad] and [text2speech]. *)
Lemma toggles_commute_witness :
  Options.get Options.raw
    (Options.next "vad" Options.raw
       (Options.next "text2speech" Options.raw [("vad", Options.Bool true)]))
    "vad"
  = Options.get Options.raw
      (Options.next "text2speech" Options.raw
         (Options.next "vad" Options.raw [("vad", Options.Bool true)]))
      "vad".
Proof.
  apply (toggles_commute "vad" "text2speech" Options.raw
           [("vad", Options.Bool true)]).
  discriminate.
Defined.

(** An instance for X21: three messages, one of which does not parse. *)
Lemma messages_are_the_newest_100_witness :
  Options.messages
    (Options.run (fun text => if String.eqb text "" then None else Some text)
       (Options.setup [] Options.raw "/sensor")
       [Options.Message "1"; Options.Message ""; Options.HandleToggle "vad";
        Options.Message "2"])
  = ["2"; "1"].
Proof.
  apply (messages_are_the_newest_100
           (fun text => if String.eqb text "" then None else Some text)
           (Options.setup [] Options.raw "/sensor")
           [Options.Message "1"; Options.Message ""; Options.HandleToggle "vad";
            Options.Message "2"]).
  cbn. lia.
Defined.

(** An instance for X22: two calls of [handleSensor] after set-up. *)
Lemma handleSensor_never_closes_witness :
  Options.closed
    (Options.run (fun text => Some text) (Options.setup [] Options.raw "/sensor")
       [Options.HandleSensor; Options.Open; Options.HandleSensor]) = 0%nat /\
  Options.created
    (Options.run (fun text => Some text) (Options.setup [] Options.raw "/sensor")
       [Options.HandleSensor; Options.Open; Options.HandleSensor])
  = ["/sensor"; "/sensor"].
Proof.
  destruct (handleSensor_never_closes (fun text => Some text)
              (Options.setup [] Options.raw "/sensor")
              [Options.HandleSensor; Options.Open; Options.HandleSensor] eq_refl)
    as (_ & Hclosed & Hcreated).
  split; [exact Hclosed | exact Hcreated].
Defined.

(** An array index is listed before the names and among the indices in
    ascending order; a text with a leading zero is a name. *)
Example next_lists_an_array_index_first :
  map fst (Options.next "1" Options.raw [("vad", Options.Bool true)])
    = ["1"; "vad"] /\
  map fst (Options.next "2" Options.raw
             [("1", Options.Null); ("10", Options.Null); ("vad", Options.Bool true)])
    = ["1"; "2"; "10"; "vad"] /\
  map fst (Options.next "007" Options.raw [("vad", Options.Bool true)])
    = ["vad"; "007"].
Proof. vm_compute. repeat split. Qed.

(** Vue's proxy answers [hasOwnProperty] by itself: toggled twice on an
    object held reactively the key is [false] both times, on a plain
    object [false] and then [true]. *)
Example reactive_hasOwnProperty_is_not_toggled_back :
  Options.own
    (Options.next "hasOwnProperty" Options.reactive [("vad", Options.Bool true)])
    "hasOwnProperty" = Some (Options.Bool false) /\
  Options.own
    (Options.next "hasOwnProperty" Options.reactive
       (Options.next "hasOwnProperty" Options.reactive [("vad", Options.Bool true)]))
    "hasOwnProperty" = Some (Options.Bool false) /\
  Options.own
    (Options.next "hasOwnProperty" Options.raw
       (Options.next "hasOwnProperty" Options.raw [("vad", Options.Bool true)]))
    "hasOwnProperty" = Some (Options.Bool true).
Proof. vm_compute. repeat split. Qed.
